(** * Barks: byte and header accounting of one flow, and the session totals

    A shallow embedding of [ContElements/Barks.py] (class [Barks]) and the
    properties of its getters.

    Conventions of the embedding.
    - Python integers are [Z].
    - Rates and ratios, which Python computes with [/] (true division), are
      exact rationals [Q]; the rounding of binary floating point is outside
      this model.
    - The class attributes [Barks.row], [Barks.total_bytes_sent], ... are one
      record [ClassAttrs] threaded through the methods that read or write
      them (a small state monad [M]).
    - A raised Python exception is a value of [exn]; a method that can raise
      returns a [result]. *)

From Stdlib Require Import ZArith QArith List String Bool Lia.
From Stdlib Require Import Permutation.
Import ListNotations.

Local Open Scope string_scope.
Local Open Scope Z_scope.

(** ** Data consumed from the collaborators *)

(** Modelled from the spec: the [PacketDirection] enum
    ([ContElements/Context/PacketDirection.py] is not among the sources); a
    two-valued tag attached to each packet of a flow. *)
Inductive PacketDirection : Type :=
  | FORWARD
  | REVERSE.

Definition PacketDirection_eqb (a b : PacketDirection) : bool :=
  match a, b with
  | FORWARD, FORWARD | REVERSE, REVERSE => true
  | _, _ => false
  end.

(** The IP layer of a packet, as far as [Barks] reads it: [packet['IP'].ttl]. *)
Record IPLayer : Type := mkIP { ttl : Z }.

(** A captured packet (a scapy object), reduced to what [Barks] reads:
    [packet.src], [packet.proto], [len(packet)] and [packet['IP']].  Every
    packet has a source address, a protocol number and a length; only the IP
    layer, with its TTL, can be absent. *)
Record Packet : Type := mkPacket {
  src : string;
  proto : Z;
  len : Z;
  IP : option IPLayer
}.

(** [self.feature]: the flow context, an ordered sequence of
    (packet, direction) pairs and the identifier of the capture interface. *)
Record Flow : Type := mkFlow {
  packets : list (Packet * PacketDirection);
  interface : string
}.

(** An instance of the class: [__init__] stores only [self.feature]. *)
Record Barks : Type := mkBarks { feature : Flow }.

(** Modelled from the spec: the byte lengths of scapy's default (option-less)
    headers [len(Ether())], [len(IP())] and [len(TCP())]; scapy is not among
    the sources. *)
Definition len_Ether : Z := 14.
Definition len_IP : Z := 20.
Definition len_TCP : Z := 20.

(** Python's built-in [sum] over integers: a left fold that starts at 0. *)
Definition sum (l : list Z) : Z := fold_left Z.add l 0.

(** ** Exceptions *)

Inductive exn : Type :=
  | IndexError (msg : string).

Inductive result (A : Type) : Type :=
  | Ok (a : A)
  | Raise (e : exn).
Arguments Ok {A} a.
Arguments Raise {A} e.

Definition rbind {A B} (r : result A) (k : A -> result B) : result B :=
  match r with
  | Ok a => k a
  | Raise e => Raise e
  end.

(** A list comprehension whose element expression can raise: the elements
    are evaluated left to right and the first exception aborts the whole
    comprehension. *)
Fixpoint comprehension {A B} (f : A -> result B) (l : list A) : result (list B) :=
  match l with
  | [] => Ok []
  | x :: l' => rbind (f x) (fun y => rbind (comprehension f l') (fun ys => Ok (y :: ys)))
  end.

(** [l[0]]. *)
Definition index0 {A} (l : list A) : result A :=
  match l with
  | x :: _ => Ok x
  | [] => Raise (IndexError "list index out of range")
  end.

(** [packet['IP']]: scapy raises [IndexError] when the layer is absent. *)
Definition getlayer_IP (packet : Packet) : result IPLayer :=
  match IP packet with
  | Some ip => Ok ip
  | None => Raise (IndexError "Layer ['IP'] not found")
  end.

(** The exceptions that the two lookups of [get_initial_ttl] raise by
    themselves: [l[0]] on an empty list and [packet['IP']] on a packet
    without that layer. *)
Definition lookup_fault (e : exn) : Prop :=
  index0 (@nil Z) = Raise e \/ exists packet, getlayer_IP packet = Raise e.

(** A dedicated "no TTL available" failure: an exception that a caller can
    tell from a propagated lookup fault.  The source defines no exception of
    its own. *)
Definition explicit_missing_ttl (e : exn) : Prop := ~ lookup_fault e.

(** ** Class attributes and the state monad over them *)

Record ClassAttrs : Type := mkClassAttrs {
  total_bytes_received : Z;
  total_bytes_sent : Z;
  total_forward_header_bytes : Z;
  total_reverse_header_bytes : Z;
  row : Z
}.

(** The class body: every attribute starts at 0. *)
Definition Barks_class : ClassAttrs := mkClassAttrs 0 0 0 0 0.

Definition set_total_bytes_received (v : Z) (s : ClassAttrs) : ClassAttrs :=
  mkClassAttrs v (total_bytes_sent s) (total_forward_header_bytes s)
               (total_reverse_header_bytes s) (row s).
Definition set_total_bytes_sent (v : Z) (s : ClassAttrs) : ClassAttrs :=
  mkClassAttrs (total_bytes_received s) v (total_forward_header_bytes s)
               (total_reverse_header_bytes s) (row s).
Definition set_total_forward_header_bytes (v : Z) (s : ClassAttrs) : ClassAttrs :=
  mkClassAttrs (total_bytes_received s) (total_bytes_sent s) v
               (total_reverse_header_bytes s) (row s).
Definition set_total_reverse_header_bytes (v : Z) (s : ClassAttrs) : ClassAttrs :=
  mkClassAttrs (total_bytes_received s) (total_bytes_sent s)
               (total_forward_header_bytes s) v (row s).
Definition set_row (v : Z) (s : ClassAttrs) : ClassAttrs :=
  mkClassAttrs (total_bytes_received s) (total_bytes_sent s)
               (total_forward_header_bytes s) (total_reverse_header_bytes s) v.

Definition M (A : Type) : Type := ClassAttrs -> A * ClassAttrs.

Definition ret {A} (a : A) : M A := fun s => (a, s).
Definition bind {A B} (m : M A) (k : A -> M B) : M B :=
  fun s => let (a, s') := m s in k a s'.
Definition read {A} (attr : ClassAttrs -> A) : M A := fun s => (attr s, s).
Definition write (setter : ClassAttrs -> ClassAttrs) : M unit :=
  fun s => (tt, setter s).

Notation "x <- m ;; k" := (bind m (fun x => k))
  (at level 61, m at next level, right associativity).
Notation "m ;;; k" := (bind m (fun _ => k))
  (at level 61, right associativity).

(** ** The methods of [Barks] *)

Section Methods.

(** The address resolver [scapy.all.get_if_hwaddr] and the duration
    provider [PacketTime(feature).get_duration()], both external. *)
Variable get_if_hwaddr : string -> string.
Variable get_duration : Flow -> Q.

(** [__init__(self, feature)]. *)
Definition __init__ (feature : Flow) : M Barks :=
  r <- read row ;;
  write (set_row (r + 1)) ;;;
  ret (mkBarks feature).

Definition get_bytes_sent (self : Barks) : Z :=
  let feat := feature self in
  let interface := get_if_hwaddr (interface (feature self)) in
  sum (map (fun pd => len (fst pd))
           (filter (fun pd => String.eqb (src (fst pd)) interface)
                   (packets feat))).

Definition get_sent_rate (self : Barks) : Q :=
  let sent := get_bytes_sent self in
  let duration := get_duration (feature self) in
  if Qeq_bool duration 0 then (-1)%Q else (inject_Z sent / duration)%Q.

Definition get_total_bytes_sent (self : Barks) : M Z :=
  r <- read row ;;
  (if r =? 1
   then write (set_total_bytes_sent (get_bytes_sent self - get_bytes_sent self))
   else t <- read total_bytes_sent ;;
        write (set_total_bytes_sent (t + get_bytes_sent self))) ;;;
  read total_bytes_sent.

Definition get_bytes_received (self : Barks) : Z :=
  let packets := packets (feature self) in
  let interface := get_if_hwaddr (interface (feature self)) in
  sum (map (fun pd => len (fst pd))
           (filter (fun pd => negb (String.eqb (src (fst pd)) interface))
                   packets)).

Definition get_received_rate (self : Barks) : Q :=
  let received := get_bytes_received self in
  let duration := get_duration (feature self) in
  if Qeq_bool duration 0 then (-1)%Q else (inject_Z received / duration)%Q.

Definition get_total_bytes_received (self : Barks) : M Z :=
  r <- read row ;;
  (if r =? 1
   then write (set_total_bytes_received
                 (get_bytes_received self - get_bytes_received self))
   else t <- read total_bytes_received ;;
        write (set_total_bytes_received (t + get_bytes_received self))) ;;;
  read total_bytes_received.

(** The nested [header_size(packet)]; [get_forward_header_bytes] and
    [get_reverse_header_bytes] each define it, with the same body. *)
Definition header_size (packet : Packet) : Z :=
  let res := len_Ether + len_IP in
  if proto packet =? 6 then res + len_TCP else res.

Definition get_forward_header_bytes (self : Barks) : Z :=
  let packets := packets (feature self) in
  sum (map (fun pd => header_size (fst pd))
           (filter (fun pd => PacketDirection_eqb (snd pd) FORWARD) packets)).

Definition get_forward_rate (self : Barks) : Q :=
  let forward := get_forward_header_bytes self in
  let duration := get_duration (feature self) in
  if negb (Qle_bool duration 0)
  then (inject_Z forward / duration)%Q
  else (-1)%Q.

Definition get_total_forward_bytes (self : Barks) : M Z :=
  r <- read row ;;
  (if r =? 1
   then write (set_total_forward_header_bytes
                 (get_forward_header_bytes self - get_forward_header_bytes self))
   else t <- read total_forward_header_bytes ;;
        write (set_total_forward_header_bytes
                 (t + get_forward_header_bytes self))) ;;;
  read total_forward_header_bytes.

Definition get_reverse_header_bytes (self : Barks) : Z :=
  let packets := packets (feature self) in
  sum (map (fun pd => header_size (fst pd))
           (filter (fun pd => PacketDirection_eqb (snd pd) REVERSE) packets)).

Definition get_total_reverse_bytes (self : Barks) : M Z :=
  r <- read row ;;
  (if r =? 1
   then write (set_total_reverse_header_bytes
                 (get_reverse_header_bytes self - get_reverse_header_bytes self))
   else t <- read total_reverse_header_bytes ;;
        write (set_total_reverse_header_bytes
                 (t + get_reverse_header_bytes self))) ;;;
  read total_reverse_header_bytes.

Definition get_reverse_rate (self : Barks) : Q :=
  let reverse := get_reverse_header_bytes self in
  let duration := get_duration (feature self) in
  if Qeq_bool duration 0 then (-1)%Q else (inject_Z reverse / duration)%Q.

Definition get_header_in_out_ratio (self : Barks) : Q :=
  let reverse_header_bytes := get_reverse_header_bytes self in
  let forward_header_bytes := get_forward_header_bytes self in
  let ratio := (-1)%Q in
  if negb (reverse_header_bytes =? 0)
  then (inject_Z forward_header_bytes / inject_Z reverse_header_bytes)%Q
  else ratio.

Definition get_total_header_in_out_ratio (self : Barks) : M Q :=
  reverse_header_bytes <- read total_reverse_header_bytes ;;
  forward_header_bytes <- read total_forward_header_bytes ;;
  let ratio := (-1)%Q in
  ret (if negb (reverse_header_bytes =? 0)
       then (inject_Z forward_header_bytes / inject_Z reverse_header_bytes)%Q
       else ratio).

Definition get_initial_ttl (self : Barks) : result Z :=
  let feat := feature self in
  rbind (comprehension (fun pd => rbind (getlayer_IP (fst pd))
                                        (fun ip => Ok (ttl ip)))
                       (packets feat))
        index0.

End Methods.

(** ** Uniform view of the getters *)

(** The four cumulative counters. *)
Inductive counter : Type :=
  | BytesSent
  | BytesReceived
  | ForwardHeaderBytes
  | ReverseHeaderBytes.

Definition counter_eqb (a b : counter) : bool :=
  match a, b with
  | BytesSent, BytesSent | BytesReceived, BytesReceived
  | ForwardHeaderBytes, ForwardHeaderBytes
  | ReverseHeaderBytes, ReverseHeaderBytes => true
  | _, _ => false
  end.

(** The class attribute behind a counter. *)
Definition total (c : counter) : ClassAttrs -> Z :=
  match c with
  | BytesSent => total_bytes_sent
  | BytesReceived => total_bytes_received
  | ForwardHeaderBytes => total_forward_header_bytes
  | ReverseHeaderBytes => total_reverse_header_bytes
  end.

Definition set_total (c : counter) : Z -> ClassAttrs -> ClassAttrs :=
  match c with
  | BytesSent => set_total_bytes_sent
  | BytesReceived => set_total_bytes_received
  | ForwardHeaderBytes => set_total_forward_header_bytes
  | ReverseHeaderBytes => set_total_reverse_header_bytes
  end.

(** The fifteen getters of the class, by name. *)
Inductive getter : Type :=
  | Get_bytes_sent | Get_sent_rate | Get_total_bytes_sent
  | Get_bytes_received | Get_received_rate | Get_total_bytes_received
  | Get_forward_header_bytes | Get_forward_rate | Get_total_forward_bytes
  | Get_reverse_header_bytes | Get_total_reverse_bytes | Get_reverse_rate
  | Get_header_in_out_ratio | Get_total_header_in_out_ratio
  | Get_initial_ttl.

(** What a getter hands back: an [int], a rate or ratio, or an exception. *)
Inductive value : Type :=
  | VInt (z : Z)
  | VNum (q : Q)
  | VRaise (e : exn).

(** The counter a getter accumulates into, if any. *)
Definition own_counter (g : getter) : option counter :=
  match g with
  | Get_total_bytes_sent => Some BytesSent
  | Get_total_bytes_received => Some BytesReceived
  | Get_total_forward_bytes => Some ForwardHeaderBytes
  | Get_total_reverse_bytes => Some ReverseHeaderBytes
  | _ => None
  end.

Section Session.

Variable get_if_hwaddr : string -> string.
Variable get_duration : Flow -> Q.

(** The per-flow statistic that feeds a counter. *)
Definition per_flow (c : counter) : Barks -> Z :=
  match c with
  | BytesSent => get_bytes_sent get_if_hwaddr
  | BytesReceived => get_bytes_received get_if_hwaddr
  | ForwardHeaderBytes => get_forward_header_bytes
  | ReverseHeaderBytes => get_reverse_header_bytes
  end.

(** The total-* getter of a counter. *)
Definition get_total (c : counter) : Barks -> M Z :=
  match c with
  | BytesSent => get_total_bytes_sent get_if_hwaddr
  | BytesReceived => get_total_bytes_received get_if_hwaddr
  | ForwardHeaderBytes => get_total_forward_bytes
  | ReverseHeaderBytes => get_total_reverse_bytes
  end.

(** Calling a getter on an instance.  The getters that do not touch the
    class attributes are plain functions of [self]; here they run in [M]
    without reading or writing the state. *)
Definition call (g : getter) (self : Barks) : M value :=
  match g with
  | Get_bytes_sent => ret (VInt (get_bytes_sent get_if_hwaddr self))
  | Get_sent_rate => ret (VNum (get_sent_rate get_if_hwaddr get_duration self))
  | Get_total_bytes_sent =>
      v <- get_total_bytes_sent get_if_hwaddr self ;; ret (VInt v)
  | Get_bytes_received => ret (VInt (get_bytes_received get_if_hwaddr self))
  | Get_received_rate =>
      ret (VNum (get_received_rate get_if_hwaddr get_duration self))
  | Get_total_bytes_received =>
      v <- get_total_bytes_received get_if_hwaddr self ;; ret (VInt v)
  | Get_forward_header_bytes => ret (VInt (get_forward_header_bytes self))
  | Get_forward_rate => ret (VNum (get_forward_rate get_duration self))
  | Get_total_forward_bytes => v <- get_total_forward_bytes self ;; ret (VInt v)
  | Get_reverse_header_bytes => ret (VInt (get_reverse_header_bytes self))
  | Get_total_reverse_bytes => v <- get_total_reverse_bytes self ;; ret (VInt v)
  | Get_reverse_rate => ret (VNum (get_reverse_rate get_duration self))
  | Get_header_in_out_ratio => ret (VNum (get_header_in_out_ratio self))
  | Get_total_header_in_out_ratio =>
      q <- get_total_header_in_out_ratio self ;; ret (VNum q)
  | Get_initial_ttl =>
      ret (match get_initial_ttl self with
           | Ok z => VInt z
           | Raise e => VRaise e
           end)
  end.

(** ** Executions of a session *)

(** What a caller does during a session: construct an accountant for a
    flow, or call the total-* getter of counter [c] on the [i]-th
    accountant constructed so far (counting from 0). *)
Inductive event : Type :=
  | Construct (feature : Flow)
  | GetTotal (c : counter) (i : nat).

(** The class attributes together with the instances created so far, in
    order of construction. *)
Record Session : Type := mkSession {
  attrs : ClassAttrs;
  objs : list Barks
}.

Definition fresh : Session := mkSession Barks_class [].

(** One event; [None] when the getter is called on an accountant that does
    not exist yet. *)
Definition step (e : event) (w : Session) : option Session :=
  match e with
  | Construct f =>
      let (self, s) := __init__ f (attrs w) in
      Some (mkSession s (objs w ++ [self]))
  | GetTotal c i =>
      match nth_error (objs w) i with
      | Some self => Some (mkSession (snd (get_total c self (attrs w))) (objs w))
      | None => None
      end
  end.

Fixpoint run (tr : list event) (w : Session) : option Session :=
  match tr with
  | [] => Some w
  | e :: tr' =>
      match step e w with
      | Some w' => run tr' w'
      | None => None
      end
  end.

(** What the call [e] would add to counter [c] if exactly the second and
    later accountants accumulated their per-flow statistic. *)
Definition later_flow_share (c : counter) (all : list Barks) (e : event) : Z :=
  match e with
  | GetTotal c' i =>
      if counter_eqb c c' && (1 <=? i)%nat
      then match nth_error all i with
           | Some self => per_flow c self
           | None => 0
           end
      else 0
  | Construct _ => 0
  end.

Definition later_flows_sum (c : counter) (all : list Barks) (tr : list event) : Z :=
  fold_right Z.add 0 (map (later_flow_share c all) tr).

(** Number of accountants constructed along a trace. *)
Definition constructions (tr : list event) : nat :=
  List.length (filter (fun e => match e with Construct _ => true | _ => false end) tr).

(** Each total-* getter is called at most once per accountant. *)
Fixpoint once_per_flow (tr : list event) : bool :=
  match tr with
  | [] => true
  | Construct _ :: tr' => once_per_flow tr'
  | GetTotal c i :: tr' =>
      negb (existsb (fun e => match e with
                              | GetTotal c' i' => counter_eqb c c' && (i =? i')%nat
                              | Construct _ => false
                              end) tr')
      && once_per_flow tr'
  end.

(** The getters of the first accountant are called only while it is the
    only one, that is before a second accountant is constructed; [n] is the
    number of accountants that exist when the trace starts. *)
Fixpoint first_read_alone (n : nat) (tr : list event) : bool :=
  match tr with
  | [] => true
  | Construct _ :: tr' => first_read_alone (S n) tr'
  | GetTotal _ i :: tr' =>
      (negb (i =? 0)%nat || (n =? 1)%nat) && first_read_alone n tr'
  end.

(** What every reachable session satisfies: [row] counts the accountants,
    and no counter has moved while there is at most one of them. *)
Definition session_inv (w : Session) : Prop :=
  row (attrs w) = Z.of_nat (List.length (objs w))
  /\ ((List.length (objs w) <= 1)%nat -> forall c, total c (attrs w) = 0).

End Session.

(** ** A concrete flow

    Three TCP packets of 100, 60 and 60 bytes, the first two sent by the
    local host and tagged FORWARD, the third received and tagged REVERSE;
    the first packet has TTL 64. *)

Definition local_mac : string := "02:42:ac:11:00:02".
Definition remote_mac : string := "02:42:ac:11:00:03".
Definition hwaddr0 : string -> string := fun _ => local_mac.

Definition pkt (s : string) (l : Z) (t : Z) : Packet :=
  mkPacket s 6 l (Some (mkIP t)).

Definition flow0 : Flow :=
  mkFlow [ (pkt local_mac 100 64, FORWARD);
           (pkt local_mac 60 64, FORWARD);
           (pkt remote_mac 60 57, REVERSE) ] "eth0".

Definition barks0 : Barks := mkBarks flow0.

(** A flow without REVERSE packets. *)
Definition flow_forward_only : Flow :=
  mkFlow [ (pkt local_mac 100 64, FORWARD) ] "eth0".

(** A link-layer frame that carries no IP layer. *)
Definition non_ip_frame : Packet := mkPacket remote_mac 0 42 None.

(** A flow whose first packet is an IP packet and whose second is not. *)
Definition flow_mixed : Flow :=
  mkFlow [ (pkt local_mac 100 64, FORWARD); (non_ip_frame, REVERSE) ] "eth0".

Definition flow_non_ip_first : Flow :=
  mkFlow [ (non_ip_frame, FORWARD); (pkt local_mac 100 64, REVERSE) ] "eth0".

Definition flow_empty : Flow := mkFlow [] "eth0".

(** Duration providers: two seconds, none, and a clock that ran backwards. *)
Definition two_seconds : Flow -> Q := fun _ => 2%Q.
Definition no_time : Flow -> Q := fun _ => 0%Q.
Definition backwards : Flow -> Q := fun _ => (-1)%Q.

(** Two accountants are constructed before the first one is read. *)
Definition late_read : list event :=
  [ Construct flow0; Construct flow_forward_only; GetTotal BytesSent 0%nat ].

(** The usual order: each flow is read before the next is constructed. *)
Definition usual_order : list event :=
  [ Construct flow0; GetTotal BytesSent 0%nat; GetTotal ForwardHeaderBytes 0%nat;
    Construct flow_forward_only; GetTotal BytesSent 1%nat;
    Construct flow0; GetTotal BytesSent 2%nat; GetTotal ReverseHeaderBytes 2%nat ].

(** ** Notions used by the further properties *)

(** The packets of a flow that carry tag [d], and their number. *)
Definition tagged (d : PacketDirection) (self : Barks) : list (Packet * PacketDirection) :=
  filter (fun pd => PacketDirection_eqb (snd pd) d) (packets (feature self)).

Definition count_tagged (d : PacketDirection) (self : Barks) : Z :=
  Z.of_nat (List.length (tagged d self)).

Definition opposite (d : PacketDirection) : PacketDirection :=
  match d with
  | FORWARD => REVERSE
  | REVERSE => FORWARD
  end.

(** The same packets on the same interface, each with the opposite tag. *)
Definition retag (self : Barks) : Barks :=
  mkBarks (mkFlow (map (fun pd => (fst pd, opposite (snd pd))) (packets (feature self)))
                  (interface (feature self))).

(** An accountant over the packets [l] captured on interface [iface]. *)
Definition over (l : list (Packet * PacketDirection)) (iface : string) : Barks :=
  mkBarks (mkFlow l iface).

(** The running totals of a list of numbers, starting from [acc]. *)
Fixpoint running_sums (acc : Z) (l : list Z) : list Z :=
  match l with
  | [] => []
  | x :: l' => (acc + x) :: running_sums (acc + x) l'
  end.

Section Callers.

Variable get_if_hwaddr : string -> string.

(** A caller that handles one flow: it constructs the accountant and reads
    the total-* getter of counter [c]. *)
Definition process (c : counter) (f : Flow) : M Z :=
  self <- __init__ f ;;
  get_total get_if_hwaddr c self.

(** The same caller over the flows of a session, one after the other; the
    values read are returned in order. *)
Fixpoint process_all (c : counter) (fs : list Flow) : M (list Z) :=
  match fs with
  | [] => ret []
  | f :: fs' =>
      v <- process c f ;;
      vs <- process_all c fs' ;;
      ret (v :: vs)
  end.

(** What an execution adds to counter [c] when every call made while two or
    more accountants exist adds the statistic of the accountant it is made
    on; [objs] are the accountants that exist when the trace starts. *)
Fixpoint accumulated (c : counter) (objs : list Barks) (tr : list event) : Z :=
  match tr with
  | [] => 0
  | Construct f :: tr' => accumulated c (objs ++ [mkBarks f]) tr'
  | GetTotal c' i :: tr' =>
      (if counter_eqb c c' && (2 <=? List.length objs)%nat
       then match nth_error objs i with
            | Some self => per_flow get_if_hwaddr c self
            | None => 0
            end
       else 0)
      + accumulated c objs tr'
  end.

End Callers.

(** [flow0] with its packets in another order. *)
Definition flow0_reordered : Flow :=
  mkFlow [ (pkt remote_mac 60 57, REVERSE);
           (pkt local_mac 100 64, FORWARD);
           (pkt local_mac 60 64, FORWARD) ] "eth0".

(** A state of the class in the middle of a session. *)
Definition mid_session : ClassAttrs := mkClassAttrs 60 160 108 54 2.

(** * Properties *)

(** ** Sums over a partition of the packets *)

Lemma fold_left_add_acc (l : list Z) (a : Z) :
  fold_left Z.add l a = a + fold_left Z.add l 0.
Proof.
  revert a; induction l as [|x l IH]; intro a; simpl.
  - lia.
  - rewrite (IH (a + x)), (IH x). lia.
Qed.

Lemma sum_nil : sum [] = 0.
Proof. reflexivity. Qed.

Lemma sum_cons (x : Z) (l : list Z) : sum (x :: l) = x + sum l.
Proof. unfold sum; simpl. apply fold_left_add_acc. Qed.

(** Two filters that split a list (each element passes exactly one of them)
    split the sum of any weight over it. *)
Lemma sum_split {A} (w : A -> Z) (p q : A -> bool) (l : list A) :
  (forall x, q x = negb (p x)) ->
  sum (map w (filter p l)) + sum (map w (filter q l)) = sum (map w l).
Proof.
  intro Hpq. induction l as [|x l IH]; simpl.
  - reflexivity.
  - rewrite (Hpq x). destruct (p x); simpl; rewrite !sum_cons; lia.
Qed.

Lemma PacketDirection_cases (d : PacketDirection) : d = FORWARD \/ d = REVERSE.
Proof. destruct d; auto. Qed.

(** C7. For every flow and every resolution of the local hardware address,
    [get_bytes_sent] plus [get_bytes_received] is the sum of [len(packet)]
    over all packets of the flow. *)
Theorem sent_plus_received_is_total_length
    (get_if_hwaddr : string -> string) (self : Barks) :
  get_bytes_sent get_if_hwaddr self + get_bytes_received get_if_hwaddr self
  = sum (map (fun pd => len (fst pd)) (packets (feature self))).
Proof.
  unfold get_bytes_sent, get_bytes_received.
  apply sum_split. reflexivity.
Qed.

(** C8. For every flow, [get_forward_header_bytes] plus
    [get_reverse_header_bytes] is the sum of [header_size(packet)] over all
    packets of the flow; that each packet is tagged FORWARD or REVERSE is
    [PacketDirection_cases]. *)
Theorem forward_plus_reverse_is_total_header (self : Barks) :
  get_forward_header_bytes self + get_reverse_header_bytes self
  = sum (map (fun pd => header_size (fst pd)) (packets (feature self))).
Proof.
  unfold get_forward_header_bytes, get_reverse_header_bytes.
  apply sum_split. intros [p d].
  destruct (PacketDirection_cases d) as [-> | ->]; reflexivity.
Qed.

(** C9. The header size of a packet is 14 + 20 + 20 = 54 when its protocol
    number is 6 and 14 + 20 = 34 otherwise; nothing else of the packet is
    looked at. *)
Theorem header_size_is_54_or_34 (packet : Packet) :
  (proto packet = 6 -> header_size packet = 54)
  /\ (proto packet <> 6 -> header_size packet = 34)
  /\ (forall other : Packet,
        proto other = proto packet -> header_size other = header_size packet).
Proof.
  unfold header_size, len_Ether, len_IP, len_TCP.
  split; [|split].
  - intro H. rewrite H. reflexivity.
  - intro H. apply Z.eqb_neq in H. rewrite H. reflexivity.
  - intros other Hp. rewrite Hp. reflexivity.
Qed.

Lemma header_size_is_54_or_34_witness :
  header_size (pkt local_mac 100 64) = 54
  /\ header_size non_ip_frame = 34.
Proof.
  split.
  - apply (proj1 (header_size_is_54_or_34 (pkt local_mac 100 64))). reflexivity.
  - apply (proj1 (proj2 (header_size_is_54_or_34 non_ip_frame))). discriminate.
Defined.

(** ** Rates *)

Lemma Qeq_bool_false (x y : Q) : ~ (x == y)%Q -> Qeq_bool x y = false.
Proof.
  intro H. destruct (Qeq_bool x y) eqn:E; [|reflexivity].
  apply Qeq_bool_iff in E. contradiction.
Qed.

Lemma Qle_bool_false (x y : Q) : (y < x)%Q -> Qle_bool x y = false.
Proof.
  intro H. destruct (Qle_bool x y) eqn:E; [|reflexivity].
  apply Qle_bool_iff in E. apply Qle_not_lt in E. contradiction.
Qed.

(** With a duration that is not negative, the guard [duration > 0] of
    [get_forward_rate] and the guard [duration == 0] of the other three rate
    getters choose the same branch. *)
Lemma forward_rate_nonnegative_duration
    (get_duration : Flow -> Q) (self : Barks) :
  (0 <= get_duration (feature self))%Q ->
  get_forward_rate get_duration self
  = if Qeq_bool (get_duration (feature self)) 0
    then (-1)%Q
    else (inject_Z (get_forward_header_bytes self) / get_duration (feature self))%Q.
Proof.
  intro Hd. unfold get_forward_rate.
  destruct (Qeq_bool (get_duration (feature self)) 0) eqn:E.
  - apply Qeq_bool_iff in E.
    assert (Hle : Qle_bool (get_duration (feature self)) 0 = true).
    { apply Qle_bool_iff. rewrite E. apply Qle_refl. }
    rewrite Hle. reflexivity.
  - rewrite Qle_bool_false; [reflexivity|].
    apply Qle_lteq in Hd. destruct Hd as [Hlt|Heq]; [exact Hlt|].
    symmetry in Heq. apply Qeq_bool_iff in Heq. congruence.
Qed.

(** The four rate getters on any duration, a negative one included: only
    there does the guard [duration > 0] of [get_forward_rate] part from the
    guard [duration == 0] of the other three. *)
Lemma rates_by_duration
    (get_if_hwaddr : string -> string) (get_duration : Flow -> Q) (self : Barks) :
  let duration := get_duration (feature self) in
  ((duration == 0)%Q ->
     get_sent_rate get_if_hwaddr get_duration self = (-1)%Q
     /\ get_received_rate get_if_hwaddr get_duration self = (-1)%Q
     /\ get_forward_rate get_duration self = (-1)%Q
     /\ get_reverse_rate get_duration self = (-1)%Q)
  /\ (~ (duration == 0)%Q ->
     get_sent_rate get_if_hwaddr get_duration self
       = (inject_Z (get_bytes_sent get_if_hwaddr self) / duration)%Q
     /\ get_received_rate get_if_hwaddr get_duration self
       = (inject_Z (get_bytes_received get_if_hwaddr self) / duration)%Q
     /\ get_reverse_rate get_duration self
       = (inject_Z (get_reverse_header_bytes self) / duration)%Q)
  /\ ((0 < duration)%Q ->
     get_forward_rate get_duration self
       = (inject_Z (get_forward_header_bytes self) / duration)%Q)
  /\ ((duration < 0)%Q -> get_forward_rate get_duration self = (-1)%Q).
Proof.
  intro duration.
  unfold get_sent_rate, get_received_rate, get_forward_rate, get_reverse_rate.
  fold duration.
  split; [|split; [|split]].
  - intro H.
    assert (Hle : Qle_bool duration 0 = true).
    { apply Qle_bool_iff. rewrite H. apply Qle_refl. }
    apply Qeq_bool_iff in H. rewrite H, Hle. auto.
  - intro H. rewrite (Qeq_bool_false _ _ H). auto.
  - intro H. rewrite (Qle_bool_false _ _ H). reflexivity.
  - intro H.
    assert (Hle : Qle_bool duration 0 = true).
    { apply Qle_bool_iff. apply Qlt_le_weak. exact H. }
    rewrite Hle. reflexivity.
Qed.

(** C5. The duration of a flow is an elapsed time, so it is never negative.
    For every flow whose duration is 0 each of the four rate getters returns
    -1; for every flow whose duration is not 0 each of them returns its byte
    count divided by the duration. *)
Theorem rates_zero_or_quotient
    (get_if_hwaddr : string -> string) (get_duration : Flow -> Q) (self : Barks) :
  (0 <= get_duration (feature self))%Q ->
  let duration := get_duration (feature self) in
  ((duration == 0)%Q ->
     get_sent_rate get_if_hwaddr get_duration self = (-1)%Q
     /\ get_received_rate get_if_hwaddr get_duration self = (-1)%Q
     /\ get_forward_rate get_duration self = (-1)%Q
     /\ get_reverse_rate get_duration self = (-1)%Q)
  /\ (~ (duration == 0)%Q ->
     get_sent_rate get_if_hwaddr get_duration self
       = (inject_Z (get_bytes_sent get_if_hwaddr self) / duration)%Q
     /\ get_received_rate get_if_hwaddr get_duration self
       = (inject_Z (get_bytes_received get_if_hwaddr self) / duration)%Q
     /\ get_forward_rate get_duration self
       = (inject_Z (get_forward_header_bytes self) / duration)%Q
     /\ get_reverse_rate get_duration self
       = (inject_Z (get_reverse_header_bytes self) / duration)%Q).
Proof.
  intros Hnonneg duration.
  rewrite (forward_rate_nonnegative_duration get_duration self Hnonneg).
  unfold get_sent_rate, get_received_rate, get_reverse_rate.
  fold duration.
  split.
  - intro H. apply Qeq_bool_iff in H. rewrite H. auto.
  - intro H. rewrite (Qeq_bool_false _ _ H). auto.
Qed.

Lemma rates_zero_or_quotient_witness :
  (get_sent_rate hwaddr0 no_time barks0 = (-1)%Q
   /\ get_received_rate hwaddr0 no_time barks0 = (-1)%Q
   /\ get_forward_rate no_time barks0 = (-1)%Q
   /\ get_reverse_rate no_time barks0 = (-1)%Q)
  /\ (get_sent_rate hwaddr0 two_seconds barks0 = (160 # 2)%Q
      /\ get_received_rate hwaddr0 two_seconds barks0 = (60 # 2)%Q
      /\ get_forward_rate two_seconds barks0 = (108 # 2)%Q
      /\ get_reverse_rate two_seconds barks0 = (54 # 2)%Q).
Proof.
  split.
  - apply (rates_zero_or_quotient hwaddr0 no_time barks0).
    + discriminate.
    + reflexivity.
  - apply (rates_zero_or_quotient hwaddr0 two_seconds barks0).
    + discriminate.
    + discriminate.
Defined.

(** With a negative duration, which no elapsed time is, [get_forward_rate]
    returns -1 where the other three getters divide. *)
Lemma forward_rate_negative_duration :
  ~ (backwards (feature barks0) == 0)%Q
  /\ get_forward_rate backwards barks0 = (-1)%Q
  /\ ~ (get_forward_rate backwards barks0
        == inject_Z (get_forward_header_bytes barks0) / backwards (feature barks0))%Q.
Proof.
  split; [discriminate|]. split; [reflexivity|discriminate].
Qed.

(** ** Ratios *)

(** C6. [get_header_in_out_ratio] returns -1 when the flow's reverse header
    bytes are 0 and forward / reverse otherwise;
    [get_total_header_in_out_ratio] does the same on the cumulative totals
    of the session. *)
Theorem ratios_by_denominator (self : Barks) (s : ClassAttrs) :
  (get_reverse_header_bytes self = 0 -> get_header_in_out_ratio self = (-1)%Q)
  /\ (get_reverse_header_bytes self <> 0 ->
      get_header_in_out_ratio self
      = (inject_Z (get_forward_header_bytes self)
         / inject_Z (get_reverse_header_bytes self))%Q)
  /\ (total_reverse_header_bytes s = 0 ->
      fst (get_total_header_in_out_ratio self s) = (-1)%Q)
  /\ (total_reverse_header_bytes s <> 0 ->
      fst (get_total_header_in_out_ratio self s)
      = (inject_Z (total_forward_header_bytes s)
         / inject_Z (total_reverse_header_bytes s))%Q).
Proof.
  unfold get_header_in_out_ratio, get_total_header_in_out_ratio,
    bind, read, ret; simpl.
  split; [|split; [|split]]; intro H.
  - rewrite H. reflexivity.
  - apply Z.eqb_neq in H. rewrite H. reflexivity.
  - rewrite H. reflexivity.
  - apply Z.eqb_neq in H. rewrite H. reflexivity.
Qed.

Lemma ratios_by_denominator_witness :
  get_header_in_out_ratio (mkBarks flow_forward_only) = (-1)%Q
  /\ get_header_in_out_ratio barks0 = (108 # 54)%Q
  /\ fst (get_total_header_in_out_ratio barks0 Barks_class) = (-1)%Q
  /\ fst (get_total_header_in_out_ratio barks0 (mkClassAttrs 60 160 108 54 2))
     = (108 # 54)%Q.
Proof.
  destruct (ratios_by_denominator (mkBarks flow_forward_only) Barks_class)
    as (Hzero & _).
  destruct (ratios_by_denominator barks0 Barks_class) as (_ & Hnz & Htzero & _).
  destruct (ratios_by_denominator barks0 (mkClassAttrs 60 160 108 54 2))
    as (_ & _ & _ & Htnz).
  split; [|split; [|split]].
  - apply Hzero. reflexivity.
  - apply Hnz. discriminate.
  - apply Htzero. reflexivity.
  - apply Htnz. discriminate.
Defined.

(** ** The initial TTL *)

Lemma comprehension_ttl_ok (l : list (Packet * PacketDirection)) :
  Forall (fun pd => IP (fst pd) <> None) l ->
  exists ts,
    comprehension (fun pd => rbind (getlayer_IP (fst pd)) (fun ip => Ok (ttl ip))) l
    = Ok ts.
Proof.
  induction 1 as [|[p d] l Hp _ [ts IH]].
  - exists []. reflexivity.
  - cbn [comprehension fst]. rewrite IH.
    unfold getlayer_IP at 1. cbn [fst] in Hp.
    destruct (IP p) as [ip|]; [|congruence].
    eexists. reflexivity.
Qed.

Lemma comprehension_ttl_raises (l : list (Packet * PacketDirection)) :
  Exists (fun pd => IP (fst pd) = None) l ->
  comprehension (fun pd => rbind (getlayer_IP (fst pd)) (fun ip => Ok (ttl ip))) l
  = Raise (IndexError "Layer ['IP'] not found").
Proof.
  induction l as [|[p d] l IH]; intro H.
  - inversion H.
  - cbn [comprehension fst]. unfold getlayer_IP at 1.
    destruct (IP p) as [ip|] eqn:E; [|reflexivity].
    inversion H as [? ? Hhd | ? ? Htl]; subst.
    + cbn [fst] in Hhd. congruence.
    + rewrite (IH Htl). reflexivity.
Qed.

Lemma comprehension_ttl_raised (l : list (Packet * PacketDirection)) (e : exn) :
  comprehension (fun pd => rbind (getlayer_IP (fst pd)) (fun ip => Ok (ttl ip))) l
  = Raise e ->
  Exists (fun pd => IP (fst pd) = None) l.
Proof.
  induction l as [|[p d] l IH]; cbn [comprehension fst].
  - discriminate.
  - unfold getlayer_IP at 1. destruct (IP p) as [ip|] eqn:E.
    + intro H. apply Exists_cons_tl. apply IH.
      cbn [rbind] in H.
      destruct (comprehension _ l); [discriminate | exact H].
    + intros _. apply Exists_cons_hd. exact E.
Qed.

(** The whole behaviour of [get_initial_ttl]: it raises exactly when the flow
    has no packet or some packet, the first or a later one, has no IP layer. *)
Lemma get_initial_ttl_raises_iff (self : Barks) :
  (exists e, get_initial_ttl self = Raise e)
  <-> packets (feature self) = []
      \/ Exists (fun pd => IP (fst pd) = None) (packets (feature self)).
Proof.
  unfold get_initial_ttl. split.
  - intros [e He].
    destruct (comprehension _ (packets (feature self))) as [ts|e'] eqn:E.
    + left. destruct (packets (feature self)) as [|[p d] l]; [reflexivity|].
      exfalso. cbn [comprehension] in E.
      destruct (rbind (getlayer_IP (fst (p, d))) _); [|discriminate].
      cbn [rbind] in E. destruct (comprehension _ l); [|discriminate].
      injection E as <-. discriminate.
    + right. exact (comprehension_ttl_raised _ _ E).
  - intros [Hnil | Hex].
    + rewrite Hnil. eexists. reflexivity.
    + rewrite (comprehension_ttl_raises _ Hex). eexists. reflexivity.
Qed.

(** A value returned by [get_initial_ttl] is the TTL of the first packet. *)
Lemma get_initial_ttl_ok_first (self : Barks) (t : Z) :
  get_initial_ttl self = Ok t ->
  exists p d rest ip,
    packets (feature self) = (p, d) :: rest /\ IP p = Some ip /\ ttl ip = t.
Proof.
  unfold get_initial_ttl. cbv zeta. intro H.
  destruct (packets (feature self)) as [|[p d] rest]; [discriminate|].
  cbn [comprehension fst] in H. unfold getlayer_IP at 1 in H.
  destruct (IP p) as [ip|] eqn:Eip; [|discriminate].
  cbn [rbind] in H. destruct (comprehension _ rest); [|discriminate].
  exists p, d, rest, ip. cbn in H.
  split; [reflexivity|]. split; [exact Eip | congruence].
Qed.

(** An exception raised by [get_initial_ttl] is the one a lookup raised. *)
Lemma get_initial_ttl_raise_fault (self : Barks) (e : exn) :
  get_initial_ttl self = Raise e -> lookup_fault e.
Proof.
  unfold get_initial_ttl. cbv zeta. intro H.
  destruct (comprehension _ (packets (feature self))) as [ts|e'] eqn:E.
  - destruct ts as [|t ts]; [|discriminate]. left. exact H.
  - pose proof (comprehension_ttl_raised _ _ E) as Hex.
    rewrite (comprehension_ttl_raises _ Hex) in E. injection E as <-.
    cbn [rbind] in H. injection H as <-.
    apply Exists_exists in Hex. destruct Hex as [pd [_ Hn]].
    right. exists (fst pd). unfold getlayer_IP. rewrite Hn. reflexivity.
Qed.

(** C2 (amended). When the flow is not empty and every packet has an IP
    layer, [get_initial_ttl] returns the TTL of the first packet.  When the
    flow is empty it raises [IndexError] (list index out of range), and when
    the first packet has no IP layer it raises [IndexError] (layer not
    found).  On every flow, a value it returns is the TTL of the first
    packet, never a default, and an exception it raises is the fault of one
    of its lookups, not a dedicated error. *)
Theorem initial_ttl_first_packet (self : Barks) :
  (forall p d rest ip,
      packets (feature self) = (p, d) :: rest ->
      IP p = Some ip ->
      Forall (fun pd => IP (fst pd) <> None) rest ->
      get_initial_ttl self = Ok (ttl ip))
  /\ (packets (feature self) = [] ->
      get_initial_ttl self = Raise (IndexError "list index out of range"))
  /\ (forall p d rest,
      packets (feature self) = (p, d) :: rest ->
      IP p = None ->
      get_initial_ttl self = Raise (IndexError "Layer ['IP'] not found"))
  /\ (forall t,
      get_initial_ttl self = Ok t ->
      exists p d rest ip,
        packets (feature self) = (p, d) :: rest /\ IP p = Some ip /\ ttl ip = t)
  /\ (forall e,
      get_initial_ttl self = Raise e ->
      lookup_fault e /\ ~ explicit_missing_ttl e).
Proof.
  split; [|split; [|split; [|split]]].
  - intros p d rest ip Hpk Hip Hrest. unfold get_initial_ttl. rewrite Hpk.
    destruct (comprehension_ttl_ok rest Hrest) as [ts Hts].
    cbn [comprehension fst]. rewrite Hts.
    unfold getlayer_IP at 1. rewrite Hip. reflexivity.
  - intro Hpk. unfold get_initial_ttl. rewrite Hpk. reflexivity.
  - intros p d rest Hpk Hip. unfold get_initial_ttl. rewrite Hpk.
    cbn [comprehension fst]. unfold getlayer_IP at 1. rewrite Hip. reflexivity.
  - intros t Ht. exact (get_initial_ttl_ok_first self t Ht).
  - intros e He. pose proof (get_initial_ttl_raise_fault self e He) as Hf.
    split; [exact Hf|]. intro Hx. exact (Hx Hf).
Qed.

Lemma initial_ttl_first_packet_witness :
  get_initial_ttl barks0 = Ok 64
  /\ get_initial_ttl (mkBarks flow_empty)
     = Raise (IndexError "list index out of range")
  /\ get_initial_ttl (mkBarks flow_non_ip_first)
     = Raise (IndexError "Layer ['IP'] not found")
  /\ (exists p d rest ip,
        packets (feature barks0) = (p, d) :: rest
        /\ IP p = Some ip /\ ttl ip = 64)
  /\ lookup_fault (IndexError "Layer ['IP'] not found").
Proof.
  destruct (initial_ttl_first_packet barks0) as (Hok & _ & _ & Hval & _).
  destruct (initial_ttl_first_packet (mkBarks flow_empty)) as (_ & Hnil & _).
  destruct (initial_ttl_first_packet (mkBarks flow_non_ip_first))
    as (_ & _ & Hno & _ & Hexn).
  split; [|split; [|split; [|split]]].
  - apply (Hok (pkt local_mac 100 64) FORWARD
               [ (pkt local_mac 60 64, FORWARD); (pkt remote_mac 60 57, REVERSE) ]
               (mkIP 64)).
    + reflexivity.
    + reflexivity.
    + repeat constructor; discriminate.
  - apply Hnil. reflexivity.
  - apply (Hno non_ip_frame FORWARD [ (pkt local_mac 100 64, REVERSE) ]).
    + reflexivity.
    + reflexivity.
  - apply Hval. reflexivity.
  - apply (Hexn (IndexError "Layer ['IP'] not found")). reflexivity.
Defined.

(** C2 as stated fails: on a flow without packets [get_initial_ttl] raises
    the [IndexError] of the lookup [[][0]] itself, and on a flow whose first
    packet has no IP layer the [IndexError] of [packet['IP']]; neither is a
    dedicated "no TTL available" error. *)
Lemma initial_ttl_raises_the_lookup_fault :
  packets (feature (mkBarks flow_empty)) = []
  /\ get_initial_ttl (mkBarks flow_empty) = index0 (@nil Z)
  /\ get_initial_ttl (mkBarks flow_empty)
     = Raise (IndexError "list index out of range")
  /\ ~ explicit_missing_ttl (IndexError "list index out of range")
  /\ IP non_ip_frame = None
  /\ get_initial_ttl (mkBarks flow_non_ip_first)
     = Raise (IndexError "Layer ['IP'] not found")
  /\ ~ explicit_missing_ttl (IndexError "Layer ['IP'] not found").
Proof.
  split; [reflexivity|]. split; [reflexivity|]. split; [reflexivity|].
  split; [intro Hx; apply Hx; left; reflexivity|].
  split; [reflexivity|]. split; [reflexivity|].
  intro Hx. apply Hx. right. exists non_ip_frame. reflexivity.
Qed.

(** A later packet without an IP layer: the first packet of [flow_mixed] is
    an IP packet with TTL 64, yet [get_initial_ttl] raises, because the
    comprehension also looks up the IP layer of the second packet. *)
Lemma initial_ttl_later_packet_without_IP :
  packets (feature (mkBarks flow_mixed))
    = [ (pkt local_mac 100 64, FORWARD); (non_ip_frame, REVERSE) ]
  /\ IP (pkt local_mac 100 64) = Some (mkIP 64)
  /\ get_initial_ttl (mkBarks flow_mixed) <> Ok 64
  /\ get_initial_ttl (mkBarks flow_mixed)
     = Raise (IndexError "Layer ['IP'] not found").
Proof.
  split; [reflexivity|]. split; [reflexivity|]. split; [discriminate|reflexivity].
Qed.

(** ** The class attributes under the getters *)

Section SessionFacts.

Variable get_if_hwaddr : string -> string.
Variable get_duration : Flow -> Q.

(** The two-branch policy shared by the four total-* getters. *)
Lemma get_total_run (c : counter) (self : Barks) (s : ClassAttrs) :
  get_total get_if_hwaddr c self s
  = let v := per_flow get_if_hwaddr c self in
    let t := if row s =? 1 then v - v else total c s + v in
    (t, set_total c t s).
Proof.
  destruct c; cbn [get_total per_flow total set_total];
    unfold get_total_bytes_sent, get_total_bytes_received,
      get_total_forward_bytes, get_total_reverse_bytes, bind, read, write;
    destruct (row s =? 1); reflexivity.
Qed.

Lemma total_set_total (c c' : counter) (v : Z) (s : ClassAttrs) :
  total c (set_total c' v s) = if counter_eqb c c' then v else total c s.
Proof. destruct c, c'; reflexivity. Qed.

Lemma row_set_total (c : counter) (v : Z) (s : ClassAttrs) :
  row (set_total c v s) = row s.
Proof. destruct c; reflexivity. Qed.

Lemma total_set_row (c : counter) (v : Z) (s : ClassAttrs) :
  total c (set_row v s) = total c s.
Proof. destruct c; reflexivity. Qed.

Lemma counter_eqb_eq (c c' : counter) : counter_eqb c c' = true <-> c = c'.
Proof. destruct c, c'; simpl; split; congruence. Qed.

(** Constructing an accountant adds exactly 1 to [row] and touches no
    counter. *)
Lemma init_run (f : Flow) (s : ClassAttrs) :
  __init__ f s = (mkBarks f, set_row (row s + 1) s).
Proof. reflexivity. Qed.

(** C3. In a fresh session, after one accountant is constructed, each of
    the four total-* getters returns 0, whatever the flow. *)
Theorem first_flow_total_is_zero (f : Flow) :
  let (self, s) := __init__ f Barks_class in
  fst (get_total_bytes_sent get_if_hwaddr self s) = 0
  /\ fst (get_total_bytes_received get_if_hwaddr self s) = 0
  /\ fst (get_total_forward_bytes self s) = 0
  /\ fst (get_total_reverse_bytes self s) = 0.
Proof.
  rewrite init_run.
  pose proof (get_total_run BytesSent (mkBarks f)) as Hs.
  pose proof (get_total_run BytesReceived (mkBarks f)) as Hr.
  pose proof (get_total_run ForwardHeaderBytes (mkBarks f)) as Hf.
  pose proof (get_total_run ReverseHeaderBytes (mkBarks f)) as Hv.
  cbn [get_total] in Hs, Hr, Hf, Hv.
  rewrite Hs, Hr, Hf, Hv. cbn.
  rewrite !Z.sub_diag. auto.
Qed.

(** While [row] is 1 the total-* getters only ever store 0. *)
Lemma first_flow_reads_keep_zero (first : Barks) (cs : list counter) :
  forall s,
    row s = 1 -> (forall c, total c s = 0) ->
    let s' := fold_left (fun s c1 => snd (get_total get_if_hwaddr c1 first s)) cs s in
    row s' = 1 /\ (forall c, total c s' = 0).
Proof.
  induction cs as [|c1 cs IH]; intros s Hrow Hzero; cbn [fold_left].
  - auto.
  - apply IH; rewrite get_total_run; cbv zeta; cbn [snd].
    + rewrite row_set_total. exact Hrow.
    + intro c. rewrite total_set_total, Hrow. cbn.
      rewrite Z.sub_diag. destruct (counter_eqb c c1); [reflexivity|apply Hzero].
Qed.

(** C4. In a fresh session, once a first accountant has been constructed
    and its total-* getters called (any of them, here the list [cs]), a
    second accountant's total-* getter returns that second flow's own
    per-flow statistic. *)
Theorem second_flow_total_is_its_own (f1 f2 : Flow) (cs : list counter) (c : counter) :
  let (first, s1) := __init__ f1 Barks_class in
  let s2 := fold_left (fun s c1 => snd (get_total get_if_hwaddr c1 first s)) cs s1 in
  let (second, s3) := __init__ f2 s2 in
  fst (get_total get_if_hwaddr c second s3) = per_flow get_if_hwaddr c second.
Proof.
  rewrite init_run. cbv zeta.
  destruct (first_flow_reads_keep_zero (mkBarks f1) cs
              (set_row (row Barks_class + 1) Barks_class)) as [Hrow Hzero].
  { reflexivity. }
  { intro c0. destruct c0; reflexivity. }
  rewrite init_run, get_total_run. cbv zeta. cbn [fst].
  rewrite total_set_row, Hzero. cbn [row set_row]. rewrite Hrow.
  reflexivity.
Qed.

(** The class attributes after a call: those left by the total-* getter of
    the getter's own counter, or the ones before the call. *)
Lemma call_state (g : getter) (self : Barks) (s : ClassAttrs) :
  snd (call get_if_hwaddr get_duration g self s)
  = match own_counter g with
    | Some c => snd (get_total get_if_hwaddr c self s)
    | None => s
    end.
Proof.
  destruct g; cbn [call own_counter get_total]; try reflexivity;
    unfold bind;
    match goal with
    | |- context [let (_, _) := ?m in _] => destruct m; reflexivity
    end.
Qed.

(** C10. A getter leaves [row] alone and changes no cumulative counter
    other than its own; a getter without a counter of its own (the
    per-flow getters, the rates, the ratios, the initial TTL) leaves every
    class attribute as it was. *)
Theorem getter_frame (g : getter) (self : Barks) (s : ClassAttrs) :
  let s' := snd (call get_if_hwaddr get_duration g self s) in
  row s' = row s
  /\ (forall c, own_counter g <> Some c -> total c s' = total c s)
  /\ (own_counter g = None -> s' = s).
Proof.
  cbv zeta. rewrite call_state.
  destruct (own_counter g) as [c0|].
  - rewrite get_total_run. cbv zeta. cbn [snd].
    split; [apply row_set_total|]. split; [|discriminate].
    intros c Hne. rewrite total_set_total.
    destruct (counter_eqb c c0) eqn:E; [|reflexivity].
    apply counter_eqb_eq in E. congruence.
  - auto.
Qed.

End SessionFacts.

Lemma getter_frame_witness :
  let s := mkClassAttrs 60 160 108 54 2 in
  total BytesReceived (snd (call hwaddr0 two_seconds Get_total_bytes_sent barks0 s))
  = total BytesReceived s
  /\ total BytesSent (snd (call hwaddr0 two_seconds Get_total_bytes_sent barks0 s))
     = 320
  /\ snd (call hwaddr0 two_seconds Get_total_header_in_out_ratio barks0 s) = s.
Proof.
  intro s.
  destruct (getter_frame hwaddr0 two_seconds Get_total_bytes_sent barks0 s)
    as (_ & Hother & _).
  destruct (getter_frame hwaddr0 two_seconds Get_total_header_in_out_ratio barks0 s)
    as (_ & _ & Hnone).
  split; [|split].
  - apply Hother. discriminate.
  - reflexivity.
  - apply Hnone. reflexivity.
Defined.

(** ** Executions *)

Section Executions.

Variable get_if_hwaddr : string -> string.

(** The instances only ever grow, at the end. *)
Lemma run_objs_extend (tr : list event) :
  forall w w', run get_if_hwaddr tr w = Some w' ->
               exists l, objs w' = (objs w ++ l)%list.
Proof.
  induction tr as [|e tr IH]; intros w w' Hrun; cbn [run] in Hrun.
  - injection Hrun as <-. exists []. symmetry. apply app_nil_r.
  - destruct (step get_if_hwaddr e w) as [w1|] eqn:Hstep; [|discriminate].
    destruct (IH _ _ Hrun) as [l Hl].
    destruct e as [f | c i]; cbn [step] in Hstep.
    + rewrite init_run in Hstep. injection Hstep as <-.
      cbn [objs] in Hl. rewrite <- app_assoc in Hl. eexists. exact Hl.
    + destruct (nth_error (objs w) i); [|discriminate].
      injection Hstep as <-. cbn [objs] in Hl. eexists. exact Hl.
Qed.

Lemma fresh_inv : session_inv fresh.
Proof. split; [reflexivity|]. intros _ c. destruct c; reflexivity. Qed.

(** Constructing an accountant keeps the invariant. *)
Lemma construct_inv (f : Flow) (w : Session) :
  session_inv w ->
  session_inv (mkSession (set_row (row (attrs w) + 1) (attrs w))
                         (objs w ++ [mkBarks f])).
Proof.
  intros [Hrow Hzero]. split; cbn [attrs objs].
  - cbn [row set_row]. rewrite Hrow, length_app. cbn [List.length]. lia.
  - rewrite length_app. cbn [List.length]. intros Hle c.
    rewrite total_set_row. apply Hzero. lia.
Qed.

(** A call of a total-* getter keeps the invariant, and moves the counters
    by what a second or later accountant is due, provided the first
    accountant is not read after a second one exists. *)
Lemma get_total_inv (c' : counter) (i : nat) (self : Barks) (w : Session)
      (all : list Barks) :
  session_inv w ->
  nth_error (objs w) i = Some self ->
  nth_error all i = Some self ->
  (negb (i =? 0)%nat || (List.length (objs w) =? 1)%nat) = true ->
  let w1 := mkSession (snd (get_total get_if_hwaddr c' self (attrs w))) (objs w) in
  session_inv w1
  /\ forall c, total c (attrs w1)
               = total c (attrs w)
                 + later_flow_share get_if_hwaddr c all (GetTotal c' i).
Proof.
  intros [Hrow Hzero] Hnth Hall Hgate. cbv zeta.
  rewrite get_total_run. cbv zeta. cbn [snd attrs objs].
  assert (Hlt : (i < List.length (objs w))%nat).
  { apply nth_error_Some. congruence. }
  destruct (row (attrs w) =? 1) eqn:Hone.
  - (* the only accountant is being read: the counter is set to 0 *)
    apply Z.eqb_eq in Hone.
    assert (Hlen : List.length (objs w) = 1%nat) by lia.
    assert (Hi : i = 0%nat) by lia. subst i.
    split.
    + split; cbn [attrs objs].
      * rewrite row_set_total. exact Hrow.
      * intros _ c. rewrite total_set_total, Z.sub_diag.
        destruct (counter_eqb c c'); [reflexivity|]. apply Hzero. lia.
    + intro c. rewrite total_set_total, Z.sub_diag.
      cbn [later_flow_share]. change (1 <=? 0)%nat with false.
      rewrite andb_false_r, Z.add_0_r.
      destruct (counter_eqb c c'); [|reflexivity].
      symmetry. apply Hzero. lia.
  - (* two or more accountants exist: the counter accumulates *)
    apply Z.eqb_neq in Hone.
    assert (Hlen : (2 <= List.length (objs w))%nat) by lia.
    assert (Hi : (1 <= i)%nat).
    { destruct i; [|lia]. cbn in Hgate. apply Nat.eqb_eq in Hgate. lia. }
    split.
    + split; cbn [attrs objs].
      * rewrite row_set_total. exact Hrow.
      * intro Hle. lia.
    + intro c. rewrite total_set_total. cbn [later_flow_share].
      apply Nat.leb_le in Hi. rewrite Hi, andb_true_r, Hall.
      destruct (counter_eqb c c') eqn:E; [|lia].
      apply counter_eqb_eq in E. subst c'. reflexivity.
Qed.

(** From any session that satisfies the invariant, an execution that does
    not read the first accountant late adds to every counter exactly the
    shares of the second and later accountants. *)
Lemma run_later_flows (tr : list event) :
  forall w w',
    session_inv w ->
    run get_if_hwaddr tr w = Some w' ->
    first_read_alone (List.length (objs w)) tr = true ->
    session_inv w'
    /\ List.length (objs w') = (List.length (objs w) + constructions tr)%nat
    /\ forall c, total c (attrs w')
                 = total c (attrs w)
                   + later_flows_sum get_if_hwaddr c (objs w') tr.
Proof.
  induction tr as [|e tr IH]; intros w w' Hinv Hrun Hgate; cbn [run] in Hrun.
  - injection Hrun as <-. split; [exact Hinv|]. split.
    + cbn. lia.
    + intro c. unfold later_flows_sum. cbn. lia.
  - destruct (step get_if_hwaddr e w) as [w1|] eqn:Hstep; [|discriminate].
    destruct (run_objs_extend _ _ _ Hrun) as [l Hl].
    destruct e as [f | c' i]; cbn [step] in Hstep; cbn [first_read_alone] in Hgate.
    + rewrite init_run in Hstep. injection Hstep as <-.
      destruct (IH _ _ (construct_inv f w Hinv) Hrun) as (Hinv' & Hlen & Htot).
      { cbn [objs]. rewrite length_app. cbn [List.length].
        rewrite Nat.add_1_r. exact Hgate. }
      split; [exact Hinv'|]. split.
      * rewrite Hlen. cbn [objs]. rewrite length_app.
        unfold constructions. cbn. lia.
      * intro c. rewrite Htot. cbn [attrs]. rewrite total_set_row.
        unfold later_flows_sum. cbn. reflexivity.
    + destruct (nth_error (objs w) i) as [self|] eqn:Hnth; [|discriminate].
      injection Hstep as <-.
      apply andb_true_iff in Hgate. destruct Hgate as [Hhere Hrest].
      assert (Hall : nth_error (objs w') i = Some self).
      { cbn [objs] in Hl. rewrite Hl. rewrite nth_error_app1; [exact Hnth|].
        apply nth_error_Some. congruence. }
      destruct (get_total_inv c' i self w (objs w') Hinv Hnth Hall Hhere)
        as (Hinv1 & Hshare).
      destruct (IH _ _ Hinv1 Hrun Hrest) as (Hinv' & Hlen & Htot).
      split; [exact Hinv'|]. split.
      * rewrite Hlen. reflexivity.
      * intro c. rewrite Htot, Hshare.
        unfold later_flows_sum. cbn [map fold_right]. lia.
Qed.

(** C1 (amended). In every execution of a fresh session in which the first
    accountant's total-* getters are called before a second accountant is
    constructed, [row] ends as the number of accountants constructed, and
    every cumulative total ends as the sum of the per-flow statistics of
    the calls made on the second and later accountants: the first flow
    adds nothing. *)
Theorem first_flow_adds_nothing (tr : list event) (w : Session) :
  run get_if_hwaddr tr fresh = Some w ->
  first_read_alone 0 tr = true ->
  row (attrs w) = Z.of_nat (constructions tr)
  /\ forall c, total c (attrs w) = later_flows_sum get_if_hwaddr c (objs w) tr.
Proof.
  intros Hrun Hgate.
  destruct (run_later_flows tr fresh w fresh_inv Hrun Hgate)
    as ((Hrow & _) & Hlen & Htot).
  split.
  - rewrite Hrow, Hlen. reflexivity.
  - intro c. rewrite Htot. destruct c; reflexivity.
Qed.

End Executions.

Lemma first_flow_adds_nothing_witness :
  exists w,
    run hwaddr0 usual_order fresh = Some w
    /\ row (attrs w) = 3
    /\ total BytesSent (attrs w) = 260
    /\ forall c, total c (attrs w) = later_flows_sum hwaddr0 c (objs w) usual_order.
Proof.
  destruct (run hwaddr0 usual_order fresh) as [w|] eqn:Hrun.
  - exists w.
    destruct (first_flow_adds_nothing hwaddr0 usual_order w Hrun eq_refl)
      as (Hrow & Htot).
    split; [reflexivity|]. split; [exact Hrow|]. split; [|exact Htot].
    vm_compute in Hrun. injection Hrun as <-. reflexivity.
  - vm_compute in Hrun. discriminate.
Defined.

(** C1 as stated fails: when a second accountant is constructed before the
    first one is read, [row] is already 2 at the first accountant's call, so
    the first flow's 160 sent bytes go into [total_bytes_sent], although each
    getter is called at most once per flow. *)
Lemma first_flow_counts_when_read_late :
  once_per_flow late_read = true
  /\ get_bytes_sent hwaddr0 barks0 = 160
  /\ exists w,
       run hwaddr0 late_read fresh = Some w
       /\ nth_error (objs w) 0 = Some barks0
       /\ total BytesSent (attrs w) = 160
       /\ later_flows_sum hwaddr0 BytesSent (objs w) late_read = 0.
Proof.
  split; [reflexivity|]. split; [reflexivity|].
  eexists. split; [reflexivity|]. split; [reflexivity|].
  split; reflexivity.
Qed.

(** ** The concrete flow, evaluated *)

Example flow0_bytes :
  get_bytes_sent hwaddr0 barks0 = 160
  /\ get_bytes_received hwaddr0 barks0 = 60
  /\ get_forward_header_bytes barks0 = 108
  /\ get_reverse_header_bytes barks0 = 54
  /\ get_initial_ttl barks0 = Ok 64.
Proof. repeat split. Qed.

Example flow0_rates :
  (get_sent_rate hwaddr0 two_seconds barks0 == 80)%Q
  /\ (get_received_rate hwaddr0 two_seconds barks0 == 30)%Q
  /\ (get_header_in_out_ratio barks0 == 2)%Q.
Proof. repeat split. Qed.

Example flow0_no_duration :
  get_sent_rate hwaddr0 no_time barks0 = (-1)%Q
  /\ get_received_rate hwaddr0 no_time barks0 = (-1)%Q
  /\ get_forward_rate no_time barks0 = (-1)%Q
  /\ get_reverse_rate no_time barks0 = (-1)%Q.
Proof. repeat split. Qed.

(** * Further properties of the getters *)

(** ** Sizes and signs *)

Lemma sum_app (l1 l2 : list Z) : sum (l1 ++ l2) = sum l1 + sum l2.
Proof.
  induction l1 as [|x l1 IH]; cbn [app].
  - rewrite sum_nil. lia.
  - rewrite !sum_cons, IH. lia.
Qed.

Lemma sum_map_bounds {A} (w : A -> Z) (lo hi : Z) (l : list A) :
  (forall x, lo <= w x <= hi) ->
  lo * Z.of_nat (List.length l) <= sum (map w l) <= hi * Z.of_nat (List.length l).
Proof.
  intro Hw. induction l as [|x l IH].
  - cbn [map List.length]. rewrite sum_nil. lia.
  - cbn [map List.length]. rewrite sum_cons, Nat2Z.inj_succ.
    specialize (Hw x). lia.
Qed.

Lemma sum_filter_nonneg {A} (w : A -> Z) (p : A -> bool) (l : list A) :
  Forall (fun x => 0 <= w x) l -> 0 <= sum (map w (filter p l)).
Proof.
  induction 1 as [|x l Hx _ IH]; cbn [filter].
  - cbn [map]. rewrite sum_nil. lia.
  - destruct (p x); [cbn [map]; rewrite sum_cons; lia | exact IH].
Qed.

Lemma header_size_bounds (packet : Packet) : 34 <= header_size packet <= 54.
Proof.
  unfold header_size, len_Ether, len_IP, len_TCP.
  destruct (proto packet =? 6); lia.
Qed.

(** X1. The header bytes of a direction lie between 34 and 54 times the
    number of packets tagged with that direction; in particular they are
    never negative. *)
Theorem header_bytes_bounds (self : Barks) :
  34 * count_tagged FORWARD self <= get_forward_header_bytes self
    <= 54 * count_tagged FORWARD self
  /\ 34 * count_tagged REVERSE self <= get_reverse_header_bytes self
    <= 54 * count_tagged REVERSE self.
Proof.
  unfold get_forward_header_bytes, get_reverse_header_bytes, count_tagged, tagged.
  split; apply sum_map_bounds; intro pd; apply header_size_bounds.
Qed.

(** The reverse header bytes are 0 exactly when no packet is tagged REVERSE. *)
Lemma reverse_header_bytes_zero (self : Barks) :
  get_reverse_header_bytes self = 0 <-> tagged REVERSE self = [].
Proof.
  assert (Hlo : 34 * Z.of_nat (List.length (tagged REVERSE self))
                <= get_reverse_header_bytes self).
  { unfold get_reverse_header_bytes, tagged.
    apply (sum_map_bounds (fun pd : Packet * PacketDirection => header_size (fst pd))
             34 54).
    intro pd. apply header_size_bounds. }
  split.
  - intro H0. destruct (tagged REVERSE self) as [|pd l]; [reflexivity|].
    cbn [List.length] in Hlo. lia.
  - intro Hnil. unfold get_reverse_header_bytes.
    unfold tagged in Hnil. rewrite Hnil. reflexivity.
Qed.

Lemma Qdiv_nonneg (a : Z) (d : Q) :
  0 <= a -> (0 < d)%Q -> (0 <= inject_Z a / d)%Q.
Proof.
  intros Ha Hd. unfold Qdiv. apply Qmult_le_0_compat.
  - change 0%Q with (inject_Z 0). rewrite <- Zle_Qle. exact Ha.
  - apply Qinv_le_0_compat. apply Qlt_le_weak. exact Hd.
Qed.

Lemma Qnonneg_not_minus_one (q : Q) : (0 <= q)%Q -> ~ (q == -1)%Q.
Proof.
  intros Hq Heq. rewrite Heq in Hq. apply Hq. reflexivity.
Qed.

Lemma header_sum_nonneg (p : Packet * PacketDirection -> bool)
      (l : list (Packet * PacketDirection)) :
  0 <= sum (map (fun pd => header_size (fst pd)) (filter p l)).
Proof.
  apply (sum_filter_nonneg (fun pd : Packet * PacketDirection => header_size (fst pd))).
  apply Forall_forall. intros pd _.
  pose proof (header_size_bounds (fst pd)). lia.
Qed.

(** X2. [get_header_in_out_ratio] is -1 exactly when the flow has no packet
    tagged REVERSE; with at least one such packet it is a ratio that is not
    negative, so the sentinel never collides with a genuine ratio. *)
Theorem header_ratio_sentinel_iff_no_reverse (self : Barks) :
  ((get_header_in_out_ratio self == -1)%Q <-> tagged REVERSE self = [])
  /\ (tagged REVERSE self <> [] ->
      (0 <= get_header_in_out_ratio self)%Q
      /\ get_header_in_out_ratio self
         = (inject_Z (get_forward_header_bytes self)
            / inject_Z (get_reverse_header_bytes self))%Q).
Proof.
  assert (Hpos : tagged REVERSE self <> [] ->
            (0 <= get_header_in_out_ratio self)%Q
            /\ get_header_in_out_ratio self
               = (inject_Z (get_forward_header_bytes self)
                  / inject_Z (get_reverse_header_bytes self))%Q).
  { intro Hne. unfold get_header_in_out_ratio. cbv zeta.
    destruct (get_reverse_header_bytes self =? 0) eqn:E.
    - exfalso. apply Hne. apply reverse_header_bytes_zero.
      apply Z.eqb_eq. exact E.
    - apply Z.eqb_neq in E. cbn [negb]. split; [|reflexivity].
      apply Qdiv_nonneg.
      + apply header_sum_nonneg.
      + change 0%Q with (inject_Z 0). rewrite <- Zlt_Qlt.
        assert (0 <= get_reverse_header_bytes self) by apply header_sum_nonneg.
        lia. }
  split; [|exact Hpos]. split.
  - intro Heq. destruct (tagged REVERSE self) as [|pd l] eqn:Et; [reflexivity|].
    exfalso. revert Heq. apply Qnonneg_not_minus_one. apply Hpos. discriminate.
  - intro Hnil. apply reverse_header_bytes_zero in Hnil.
    unfold get_header_in_out_ratio. cbv zeta. rewrite Hnil. reflexivity.
Qed.

Lemma header_ratio_sentinel_iff_no_reverse_witness :
  (get_header_in_out_ratio (mkBarks flow_forward_only) == -1)%Q
  /\ (0 <= get_header_in_out_ratio barks0)%Q.
Proof.
  split.
  - apply (proj1 (header_ratio_sentinel_iff_no_reverse (mkBarks flow_forward_only))).
    reflexivity.
  - apply (proj2 (header_ratio_sentinel_iff_no_reverse barks0)).
    discriminate.
Defined.

(** X3. [get_forward_rate] is -1 exactly when the duration is not positive;
    with a positive duration it is the forward header bytes divided by the
    duration, a rate that is not negative, so the sentinel is unambiguous. *)
Theorem forward_rate_sentinel_iff (get_duration : Flow -> Q) (self : Barks) :
  ((get_forward_rate get_duration self == -1)%Q
   <-> (get_duration (feature self) <= 0)%Q)
  /\ ((0 < get_duration (feature self))%Q ->
      (0 <= get_forward_rate get_duration self)%Q
      /\ get_forward_rate get_duration self
         = (inject_Z (get_forward_header_bytes self)
            / get_duration (feature self))%Q).
Proof.
  assert (Hpos : (0 < get_duration (feature self))%Q ->
            (0 <= get_forward_rate get_duration self)%Q
            /\ get_forward_rate get_duration self
               = (inject_Z (get_forward_header_bytes self)
                  / get_duration (feature self))%Q).
  { intro Hd. unfold get_forward_rate. cbv zeta.
    rewrite (Qle_bool_false _ _ Hd). cbn [negb]. split; [|reflexivity].
    apply Qdiv_nonneg; [|exact Hd]. apply header_sum_nonneg. }
  split; [|exact Hpos]. split.
  - intro Heq.
    destruct (Qlt_le_dec 0 (get_duration (feature self))) as [Hd|Hle];
      [|exact Hle].
    exfalso. revert Heq. apply Qnonneg_not_minus_one. apply Hpos. exact Hd.
  - intro Hle. unfold get_forward_rate. cbv zeta.
    apply Qle_bool_iff in Hle. rewrite Hle. reflexivity.
Qed.

Lemma forward_rate_sentinel_iff_witness :
  (get_forward_rate no_time barks0 == -1)%Q
  /\ (0 <= get_forward_rate two_seconds barks0)%Q.
Proof.
  split.
  - apply (proj1 (forward_rate_sentinel_iff no_time barks0)). discriminate.
  - apply (proj2 (forward_rate_sentinel_iff two_seconds barks0)). reflexivity.
Defined.

(** X4. When no packet length is negative and the duration is not negative,
    the byte counts are not negative and [get_sent_rate],
    [get_received_rate] and [get_reverse_rate] are -1 exactly when the
    duration is 0. *)
Theorem rate_sentinel_iff_zero_duration
    (get_if_hwaddr : string -> string) (get_duration : Flow -> Q) (self : Barks) :
  Forall (fun pd => 0 <= len (fst pd)) (packets (feature self)) ->
  (0 <= get_duration (feature self))%Q ->
  0 <= get_bytes_sent get_if_hwaddr self
  /\ 0 <= get_bytes_received get_if_hwaddr self
  /\ ((get_sent_rate get_if_hwaddr get_duration self == -1)%Q
      <-> (get_duration (feature self) == 0)%Q)
  /\ ((get_received_rate get_if_hwaddr get_duration self == -1)%Q
      <-> (get_duration (feature self) == 0)%Q)
  /\ ((get_reverse_rate get_duration self == -1)%Q
      <-> (get_duration (feature self) == 0)%Q).
Proof.
  intros Hlen Hdur.
  assert (Hs : 0 <= get_bytes_sent get_if_hwaddr self).
  { unfold get_bytes_sent. cbv zeta.
    apply (sum_filter_nonneg (fun pd : Packet * PacketDirection => len (fst pd))).
    exact Hlen. }
  assert (Hr : 0 <= get_bytes_received get_if_hwaddr self).
  { unfold get_bytes_received. cbv zeta.
    apply (sum_filter_nonneg (fun pd : Packet * PacketDirection => len (fst pd))).
    exact Hlen. }
  assert (Hv : 0 <= get_reverse_header_bytes self).
  { apply header_sum_nonneg. }
  assert (Hrate : forall n : Z, 0 <= n ->
            ((if Qeq_bool (get_duration (feature self)) 0
              then (-1)%Q
              else (inject_Z n / get_duration (feature self))%Q) == -1)%Q
            <-> (get_duration (feature self) == 0)%Q).
  { intros n Hn. destruct (Qeq_bool (get_duration (feature self)) 0) eqn:E.
    - apply Qeq_bool_iff in E. split; [intros _; exact E | reflexivity].
    - split.
      + intro Heq. exfalso. revert Heq.
        apply Qnonneg_not_minus_one. apply Qdiv_nonneg; [exact Hn|].
        apply Qle_lteq in Hdur. destruct Hdur as [Hlt|Hz]; [exact Hlt|].
        symmetry in Hz. apply Qeq_bool_iff in Hz. congruence.
      + intro Hz. apply Qeq_bool_iff in Hz. congruence. }
  split; [exact Hs|]. split; [exact Hr|].
  unfold get_sent_rate, get_received_rate, get_reverse_rate. cbv zeta.
  split; [apply Hrate; exact Hs|]. split; [apply Hrate; exact Hr|].
  apply Hrate; exact Hv.
Qed.

Lemma rate_sentinel_iff_zero_duration_witness :
  0 <= get_bytes_sent hwaddr0 barks0
  /\ ((get_sent_rate hwaddr0 no_time barks0 == -1)%Q <-> (0 == 0)%Q).
Proof.
  assert (Hlen : Forall (fun pd : Packet * PacketDirection => 0 <= len (fst pd))
                        (packets (feature barks0))).
  { repeat constructor; discriminate. }
  destruct (rate_sentinel_iff_zero_duration hwaddr0 no_time barks0 Hlen)
    as (Hs & _ & Hrate & _).
  - discriminate.
  - split; [exact Hs | exact Hrate].
Defined.

(** ** The order and the grouping of the packets *)

Lemma sum_filter_perm {A} (w : A -> Z) (p : A -> bool) (l l' : list A) :
  Permutation l l' -> sum (map w (filter p l)) = sum (map w (filter p l')).
Proof.
  induction 1 as [| x l l' _ IH | x y l | l l' l'' _ IH1 _ IH2].
  - reflexivity.
  - cbn [filter]. destruct (p x); [|exact IH].
    cbn [map]. rewrite !sum_cons, IH. reflexivity.
  - cbn [filter]. destruct (p x), (p y); cbn [map]; rewrite ?sum_cons; lia.
  - congruence.
Qed.

(** X5. The four per-flow counts do not depend on the order of the packets:
    two accountants on the same interface whose packets are a permutation of
    each other report the same bytes sent and received and the same forward
    and reverse header bytes. *)
Theorem counts_ignore_packet_order
    (get_if_hwaddr : string -> string) (a b : Barks) :
  interface (feature a) = interface (feature b) ->
  Permutation (packets (feature a)) (packets (feature b)) ->
  get_bytes_sent get_if_hwaddr a = get_bytes_sent get_if_hwaddr b
  /\ get_bytes_received get_if_hwaddr a = get_bytes_received get_if_hwaddr b
  /\ get_forward_header_bytes a = get_forward_header_bytes b
  /\ get_reverse_header_bytes a = get_reverse_header_bytes b.
Proof.
  intros Hif Hperm.
  unfold get_bytes_sent, get_bytes_received, get_forward_header_bytes,
    get_reverse_header_bytes. cbv zeta. rewrite Hif.
  split; [|split; [|split]]; apply sum_filter_perm; exact Hperm.
Qed.

Lemma counts_ignore_packet_order_witness :
  get_bytes_sent hwaddr0 barks0 = get_bytes_sent hwaddr0 (mkBarks flow0_reordered)
  /\ get_forward_header_bytes barks0
     = get_forward_header_bytes (mkBarks flow0_reordered).
Proof.
  destruct (counts_ignore_packet_order hwaddr0 barks0 (mkBarks flow0_reordered))
    as (Hs & _ & Hf & _).
  - reflexivity.
  - apply Permutation_sym.
    exact (Permutation_cons_append
             [ (pkt local_mac 100 64, FORWARD); (pkt local_mac 60 64, FORWARD) ]
             (pkt remote_mac 60 57, REVERSE)).
  - split; [exact Hs | exact Hf].
Defined.

(** X6. The four per-flow counts are additive: over the packets of two
    captures put one after the other they are the sums of the counts over
    each capture. *)
Theorem counts_add_over_append
    (get_if_hwaddr : string -> string)
    (l1 l2 : list (Packet * PacketDirection)) (iface : string) :
  get_bytes_sent get_if_hwaddr (over (l1 ++ l2) iface)
  = get_bytes_sent get_if_hwaddr (over l1 iface)
    + get_bytes_sent get_if_hwaddr (over l2 iface)
  /\ get_bytes_received get_if_hwaddr (over (l1 ++ l2) iface)
     = get_bytes_received get_if_hwaddr (over l1 iface)
       + get_bytes_received get_if_hwaddr (over l2 iface)
  /\ get_forward_header_bytes (over (l1 ++ l2) iface)
     = get_forward_header_bytes (over l1 iface)
       + get_forward_header_bytes (over l2 iface)
  /\ get_reverse_header_bytes (over (l1 ++ l2) iface)
     = get_reverse_header_bytes (over l1 iface)
       + get_reverse_header_bytes (over l2 iface).
Proof.
  unfold get_bytes_sent, get_bytes_received, get_forward_header_bytes,
    get_reverse_header_bytes, over. cbn [feature packets interface].
  rewrite !filter_app, !map_app, !sum_app. auto.
Qed.

(** ** Exchanging the direction tags *)

Lemma retag_filter_sum (w : Packet -> Z) (d : PacketDirection)
      (l : list (Packet * PacketDirection)) :
  sum (map (fun pd => w (fst pd))
           (filter (fun pd => PacketDirection_eqb (snd pd) d)
                   (map (fun pd => (fst pd, opposite (snd pd))) l)))
  = sum (map (fun pd => w (fst pd))
             (filter (fun pd => PacketDirection_eqb (snd pd) (opposite d)) l)).
Proof.
  induction l as [|[p t] l IH]; [reflexivity|].
  cbn [map filter fst snd].
  destruct t, d; cbn [opposite PacketDirection_eqb map fst];
    rewrite ?sum_cons, IH; reflexivity.
Qed.

Lemma retag_keeps_sum (w : Packet -> Z) (q : Packet -> bool)
      (l : list (Packet * PacketDirection)) :
  sum (map (fun pd => w (fst pd))
           (filter (fun pd => q (fst pd))
                   (map (fun pd => (fst pd, opposite (snd pd))) l)))
  = sum (map (fun pd => w (fst pd)) (filter (fun pd => q (fst pd)) l)).
Proof.
  induction l as [|[p t] l IH]; [reflexivity|].
  cbn [map filter fst snd].
  destruct (q p); cbn [map fst]; rewrite ?sum_cons, IH; reflexivity.
Qed.

(** X7. The two partitions are independent: giving every packet the
    opposite direction tag exchanges the forward and the reverse header
    bytes and leaves the bytes sent and the bytes received as they were. *)
Theorem retag_swaps_headers_only
    (get_if_hwaddr : string -> string) (self : Barks) :
  get_forward_header_bytes (retag self) = get_reverse_header_bytes self
  /\ get_reverse_header_bytes (retag self) = get_forward_header_bytes self
  /\ get_bytes_sent get_if_hwaddr (retag self) = get_bytes_sent get_if_hwaddr self
  /\ get_bytes_received get_if_hwaddr (retag self)
     = get_bytes_received get_if_hwaddr self.
Proof.
  unfold get_forward_header_bytes, get_reverse_header_bytes, get_bytes_sent,
    get_bytes_received, retag. cbn [feature packets interface].
  split; [|split; [|split]].
  - apply (retag_filter_sum header_size FORWARD).
  - apply (retag_filter_sum header_size REVERSE).
  - apply (retag_keeps_sum len
             (fun p => String.eqb (src p)
                         (get_if_hwaddr (interface (feature self))))).
  - apply (retag_keeps_sum len
             (fun p => negb (String.eqb (src p)
                               (get_if_hwaddr (interface (feature self)))))).
Qed.

(** ** When the initial TTL is returned and which exception is raised *)

Lemma comprehension_ttl_ok_inv (l : list (Packet * PacketDirection)) (ts : list Z) :
  comprehension (fun pd => rbind (getlayer_IP (fst pd)) (fun ip => Ok (ttl ip))) l
  = Ok ts ->
  Forall (fun pd => IP (fst pd) <> None) l.
Proof.
  revert ts. induction l as [|[p d] l IH]; intros ts H.
  - constructor.
  - cbn [comprehension fst] in H. unfold getlayer_IP at 1 in H.
    destruct (IP p) as [ip|] eqn:E; [|discriminate].
    cbn [rbind] in H.
    destruct (comprehension _ l) as [ts'|e] eqn:El; [|discriminate].
    constructor.
    + cbn [fst]. congruence.
    + exact (IH ts' eq_refl).
Qed.

(** X8. [get_initial_ttl] returns a value exactly when the flow has a first
    packet and every packet of the flow has an IP layer; the value is then
    the TTL of the first packet. *)
Theorem initial_ttl_ok_iff (self : Barks) (t : Z) :
  get_initial_ttl self = Ok t
  <-> exists p d rest ip,
        packets (feature self) = (p, d) :: rest
        /\ IP p = Some ip /\ ttl ip = t
        /\ Forall (fun pd => IP (fst pd) <> None) rest.
Proof.
  unfold get_initial_ttl. cbv zeta. split.
  - intro H. destruct (packets (feature self)) as [|[p d] rest]; [discriminate|].
    destruct (comprehension _ ((p, d) :: rest)) as [ts|e] eqn:E; [|discriminate].
    pose proof (comprehension_ttl_ok_inv _ _ E) as Hall.
    inversion Hall as [|? ? Hp Hrest]; subst.
    cbn [fst] in Hp. destruct (IP p) as [ip|] eqn:Eip; [|congruence].
    exists p, d, rest, ip. split; [reflexivity|]. split; [exact Eip|].
    split; [|exact Hrest].
    cbn [comprehension fst] in E. unfold getlayer_IP at 1 in E.
    rewrite Eip in E. cbn [rbind] in E.
    destruct (comprehension _ rest); [|discriminate].
    injection E as <-. cbn in H. congruence.
  - intros (p & d & rest & ip & Hpk & Hip & Ht & Hrest). rewrite Hpk.
    destruct (comprehension_ttl_ok rest Hrest) as [ts Hts].
    cbn [comprehension fst]. rewrite Hts.
    unfold getlayer_IP at 1. rewrite Hip. cbn. congruence.
Qed.

Lemma initial_ttl_ok_iff_witness :
  get_initial_ttl barks0 = Ok 64
  /\ ~ (exists p d rest ip,
           packets (feature (mkBarks flow_mixed)) = (p, d) :: rest
           /\ IP p = Some ip /\ ttl ip = 64
           /\ Forall (fun pd => IP (fst pd) <> None) rest).
Proof.
  split.
  - apply (initial_ttl_ok_iff barks0 64).
    exists (pkt local_mac 100 64), FORWARD,
      [ (pkt local_mac 60 64, FORWARD); (pkt remote_mac 60 57, REVERSE) ],
      (mkIP 64).
    split; [reflexivity|]. split; [reflexivity|]. split; [reflexivity|].
    repeat constructor; discriminate.
  - intro H. apply (initial_ttl_ok_iff (mkBarks flow_mixed) 64) in H.
    revert H. vm_compute. discriminate.
Defined.

(** X9. [get_initial_ttl] raises the list-index error exactly on a flow
    without packets, and the layer-lookup error exactly when some packet of
    the flow has no IP layer; it raises nothing else. *)
Theorem initial_ttl_errors (self : Barks) :
  (get_initial_ttl self = Raise (IndexError "list index out of range")
   <-> packets (feature self) = [])
  /\ (get_initial_ttl self = Raise (IndexError "Layer ['IP'] not found")
      <-> Exists (fun pd => IP (fst pd) = None) (packets (feature self)))
  /\ (forall e, get_initial_ttl self = Raise e ->
        e = IndexError "list index out of range"
        \/ e = IndexError "Layer ['IP'] not found").
Proof.
  unfold get_initial_ttl. cbv zeta.
  destruct (comprehension _ (packets (feature self))) as [ts|e] eqn:E.
  - (* every lookup succeeded *)
    pose proof (comprehension_ttl_ok_inv _ _ E) as Hall.
    assert (Hno : ~ Exists (fun pd => IP (fst pd) = None) (packets (feature self))).
    { intro Hex. apply Exists_exists in Hex. destruct Hex as [pd [Hin Hn]].
      rewrite Forall_forall in Hall. exact (Hall pd Hin Hn). }
    destruct (packets (feature self)) as [|[p d] rest].
    + cbn in E. injection E as <-. cbn.
      split; [split; reflexivity|]. split.
      * split; [discriminate | intro H; inversion H].
      * intros e H. left. congruence.
    + cbn [comprehension] in E.
      destruct (rbind (getlayer_IP (fst (p, d))) _); [|discriminate].
      cbn [rbind] in E. destruct (comprehension _ rest); [|discriminate].
      injection E as <-. cbn.
      split; [split; discriminate|]. split.
      * split; [discriminate | intro H; contradiction].
      * intros e H. discriminate.
  - (* some lookup failed *)
    pose proof (comprehension_ttl_raised _ _ E) as Hex.
    rewrite (comprehension_ttl_raises _ Hex) in E. injection E as <-.
    cbn [rbind]. split.
    + split; [discriminate|].
      intro Hnil. rewrite Hnil in Hex. inversion Hex.
    + split.
      * split; [intros _; exact Hex | reflexivity].
      * intros e H. right. congruence.
Qed.

Lemma initial_ttl_errors_witness :
  get_initial_ttl (mkBarks flow_empty) = Raise (IndexError "list index out of range")
  /\ get_initial_ttl (mkBarks flow_mixed) = Raise (IndexError "Layer ['IP'] not found").
Proof.
  destruct (initial_ttl_errors (mkBarks flow_empty)) as (Hnil & _).
  destruct (initial_ttl_errors (mkBarks flow_mixed)) as (_ & Hex & _).
  split.
  - apply Hnil. reflexivity.
  - apply Hex. apply Exists_cons_tl. apply Exists_cons_hd. reflexivity.
Defined.

(** ** The total-* getters called again, and in another order *)

Section TotalsAgain.

Variable get_if_hwaddr : string -> string.

(** X10. A total-* getter is not idempotent once [row] has left 1: called
    twice on the same accountant it adds the flow's statistic twice.  While
    [row] is 1 both calls return 0. *)
Theorem total_getter_called_twice (c : counter) (self : Barks) (s : ClassAttrs) :
  let v1 := fst (get_total get_if_hwaddr c self s) in
  let v2 := fst (get_total get_if_hwaddr c self
                   (snd (get_total get_if_hwaddr c self s))) in
  (row s = 1 -> v1 = 0 /\ v2 = 0)
  /\ (row s <> 1 ->
      v1 = total c s + per_flow get_if_hwaddr c self
      /\ v2 = total c s + 2 * per_flow get_if_hwaddr c self).
Proof.
  rewrite !get_total_run. cbv zeta. cbn [fst snd].
  rewrite row_set_total, total_set_total.
  assert (Hcc : counter_eqb c c = true) by (apply counter_eqb_eq; reflexivity).
  rewrite Hcc. split.
  - intro H1. apply Z.eqb_eq in H1. rewrite H1. split; apply Z.sub_diag.
  - intro H1. apply Z.eqb_neq in H1. rewrite H1. split; lia.
Qed.

(** X11. Calls of total-* getters commute on the class attributes, whatever
    the accountants and the counters; and the value a getter returns does
    not depend on an earlier call of the getter of another counter. *)
Theorem total_getters_commute (c1 c2 : counter) (a b : Barks) (s : ClassAttrs) :
  snd (get_total get_if_hwaddr c1 a (snd (get_total get_if_hwaddr c2 b s)))
  = snd (get_total get_if_hwaddr c2 b (snd (get_total get_if_hwaddr c1 a s)))
  /\ (c1 <> c2 ->
      fst (get_total get_if_hwaddr c1 a (snd (get_total get_if_hwaddr c2 b s)))
      = fst (get_total get_if_hwaddr c1 a s)).
Proof.
  rewrite !get_total_run. cbv zeta. cbn [fst snd].
  rewrite !row_set_total, !total_set_total. split.
  - destruct (row s =? 1); destruct c1, c2;
      cbn [counter_eqb set_total set_total_bytes_sent set_total_bytes_received
           set_total_forward_header_bytes set_total_reverse_header_bytes
           total_bytes_sent total_bytes_received total_forward_header_bytes
           total_reverse_header_bytes row total];
      rewrite ?Z.sub_diag; try reflexivity;
      unfold set_total_bytes_sent, set_total_bytes_received,
        set_total_forward_header_bytes, set_total_reverse_header_bytes;
      cbn [total_bytes_sent total_bytes_received total_forward_header_bytes
           total_reverse_header_bytes row];
      f_equal; lia.
  - intro Hne. destruct (counter_eqb c1 c2) eqn:E; [|reflexivity].
    apply counter_eqb_eq in E. contradiction.
Qed.

(** X12. The session ratio after the first two flows: once the first
    accountant has read its two header totals the session ratio is -1, and
    once a second accountant has read them too the session ratio is that
    second flow's own header ratio. *)
Theorem session_ratio_of_first_two_flows (f1 f2 : Flow) :
  let (a1, s1) := __init__ f1 Barks_class in
  let s2 := snd (get_total_reverse_bytes a1 (snd (get_total_forward_bytes a1 s1))) in
  let (a2, s3) := __init__ f2 s2 in
  let s4 := snd (get_total_reverse_bytes a2 (snd (get_total_forward_bytes a2 s3))) in
  fst (get_total_header_in_out_ratio a1 s2) = (-1)%Q
  /\ fst (get_total_header_in_out_ratio a2 s4) = get_header_in_out_ratio a2.
Proof.
  rewrite init_run. cbv zeta. rewrite init_run.
  change get_total_forward_bytes with (get_total get_if_hwaddr ForwardHeaderBytes).
  change get_total_reverse_bytes with (get_total get_if_hwaddr ReverseHeaderBytes).
  rewrite !get_total_run. cbv zeta. cbn [fst snd].
  unfold get_total_header_in_out_ratio, get_header_in_out_ratio, bind, read, ret.
  cbn [fst snd per_flow total row set_row set_total Barks_class
       set_total_forward_header_bytes set_total_reverse_header_bytes
       total_forward_header_bytes total_reverse_header_bytes
       total_bytes_sent total_bytes_received].
  change (0 + 1 =? 1) with true. change (0 + 1 + 1 =? 1) with false. cbv iota.
  rewrite !Z.sub_diag. cbn [Z.add Z.eqb negb]. split; reflexivity.
Qed.

End TotalsAgain.

Lemma total_getters_commute_witness :
  fst (get_total hwaddr0 BytesSent barks0
         (snd (get_total hwaddr0 ForwardHeaderBytes barks0 mid_session)))
  = fst (get_total hwaddr0 BytesSent barks0 mid_session).
Proof.
  apply (proj2 (total_getters_commute hwaddr0 BytesSent ForwardHeaderBytes
                  barks0 barks0 mid_session)).
  discriminate.
Defined.

Lemma total_getter_called_twice_witness :
  fst (get_total hwaddr0 BytesSent barks0
         (snd (get_total hwaddr0 BytesSent barks0 mid_session)))
  = 160 + 2 * 160
  /\ fst (get_total hwaddr0 BytesSent barks0
           (snd (get_total hwaddr0 BytesSent barks0
                   (set_row 1 Barks_class))))
     = 0.
Proof.
  split.
  - apply (proj2 (total_getter_called_twice hwaddr0 BytesSent barks0 mid_session)).
    discriminate.
  - apply (proj1 (total_getter_called_twice hwaddr0 BytesSent barks0
                    (set_row 1 Barks_class))).
    reflexivity.
Defined.

(** ** Executions in any order *)

Section AnyExecution.

Variable get_if_hwaddr : string -> string.

(** A call of a total-* getter on an existing accountant keeps the
    invariant, and adds the accountant's statistic to its own counter exactly
    when two or more accountants exist. *)
Lemma get_total_step (c' : counter) (i : nat) (self : Barks) (w : Session) :
  session_inv w ->
  nth_error (objs w) i = Some self ->
  let s1 := snd (get_total get_if_hwaddr c' self (attrs w)) in
  session_inv (mkSession s1 (objs w))
  /\ forall c, total c s1
               = total c (attrs w)
                 + (if counter_eqb c c' && (2 <=? List.length (objs w))%nat
                    then per_flow get_if_hwaddr c self
                    else 0).
Proof.
  intros [Hrow Hzero] Hnth. cbv zeta.
  rewrite get_total_run. cbv zeta. cbn [snd].
  assert (Hlt : (i < List.length (objs w))%nat).
  { apply nth_error_Some. congruence. }
  destruct (row (attrs w) =? 1) eqn:Hone.
  - apply Z.eqb_eq in Hone.
    assert (Hlen : List.length (objs w) = 1%nat) by lia.
    split.
    + split; cbn [attrs objs].
      * rewrite row_set_total. exact Hrow.
      * intros _ c. rewrite total_set_total, Z.sub_diag.
        destruct (counter_eqb c c'); [reflexivity|]. apply Hzero. lia.
    + intro c. rewrite total_set_total, Z.sub_diag, Hlen.
      change (2 <=? 1)%nat with false. rewrite andb_false_r, Z.add_0_r.
      destruct (counter_eqb c c'); [|reflexivity].
      symmetry. apply Hzero. lia.
  - apply Z.eqb_neq in Hone.
    assert (Hlen : (2 <= List.length (objs w))%nat) by lia.
    split.
    + split; cbn [attrs objs].
      * rewrite row_set_total. exact Hrow.
      * intro Hle. lia.
    + intro c. rewrite total_set_total.
      apply Nat.leb_le in Hlen. rewrite Hlen, andb_true_r.
      destruct (counter_eqb c c') eqn:E; [|lia].
      apply counter_eqb_eq in E. subst c'. reflexivity.
Qed.

Lemma run_accumulated (tr : list event) :
  forall w w',
    session_inv w ->
    run get_if_hwaddr tr w = Some w' ->
    session_inv w'
    /\ List.length (objs w') = (List.length (objs w) + constructions tr)%nat
    /\ forall c, total c (attrs w')
                 = total c (attrs w) + accumulated get_if_hwaddr c (objs w) tr.
Proof.
  induction tr as [|e tr IH]; intros w w' Hinv Hrun; cbn [run] in Hrun.
  - injection Hrun as <-. split; [exact Hinv|]. split.
    + cbn. lia.
    + intro c. cbn [accumulated]. lia.
  - destruct (step get_if_hwaddr e w) as [w1|] eqn:Hstep; [|discriminate].
    destruct e as [f | c' i]; cbn [step] in Hstep.
    + rewrite init_run in Hstep. injection Hstep as <-.
      destruct (IH _ _ (construct_inv f w Hinv) Hrun) as (Hinv' & Hlen & Htot).
      split; [exact Hinv'|]. split.
      * rewrite Hlen. cbn [objs]. rewrite length_app.
        unfold constructions. cbn. lia.
      * intro c. rewrite Htot. cbn [attrs objs accumulated].
        rewrite total_set_row. reflexivity.
    + destruct (nth_error (objs w) i) as [self|] eqn:Hnth; [|discriminate].
      injection Hstep as <-.
      destruct (get_total_step c' i self w Hinv Hnth) as (Hinv1 & Hshare).
      destruct (IH _ _ Hinv1 Hrun) as (Hinv' & Hlen & Htot).
      split; [exact Hinv'|]. split.
      * rewrite Hlen. reflexivity.
      * intro c. rewrite Htot. cbn [attrs objs accumulated].
        rewrite Hshare, Hnth. lia.
Qed.

Lemma accumulated_header_nonneg (c : counter) (tr : list event) :
  c = ForwardHeaderBytes \/ c = ReverseHeaderBytes ->
  forall objs, 0 <= accumulated get_if_hwaddr c objs tr.
Proof.
  intro Hc. induction tr as [|[f | c' i] tr IH]; intro objs; cbn [accumulated].
  - lia.
  - apply IH.
  - specialize (IH objs).
    destruct (counter_eqb c c' && (2 <=? List.length objs)%nat); [|lia].
    destruct (nth_error objs i) as [self|]; [|lia].
    assert (0 <= per_flow get_if_hwaddr c self); [|lia].
    destruct Hc as [-> | ->]; apply header_sum_nonneg.
Qed.

(** X13. In every execution of a fresh session, in whatever order the
    accountants are constructed and read, [row] ends as the number of
    accountants constructed and each cumulative total ends as the sum, over
    the calls of its getter made while two or more accountants existed, of
    the statistic of the accountant the call was made on. *)
Theorem totals_in_any_execution (tr : list event) (w : Session) :
  run get_if_hwaddr tr fresh = Some w ->
  row (attrs w) = Z.of_nat (constructions tr)
  /\ List.length (objs w) = constructions tr
  /\ forall c, total c (attrs w) = accumulated get_if_hwaddr c [] tr.
Proof.
  intro Hrun.
  destruct (run_accumulated tr fresh w fresh_inv Hrun) as ((Hrow & _) & Hlen & Htot).
  split; [rewrite Hrow, Hlen; reflexivity|]. split; [exact Hlen|].
  intro c. rewrite Htot. destruct c; reflexivity.
Qed.

(** X14. In every execution of a fresh session the two cumulative header
    totals are never negative, and no further event makes either of them
    smaller. *)
Theorem header_totals_never_decrease (tr : list event) (w : Session)
        (e : event) (w' : Session) :
  run get_if_hwaddr tr fresh = Some w ->
  step get_if_hwaddr e w = Some w' ->
  0 <= total_forward_header_bytes (attrs w)
    <= total_forward_header_bytes (attrs w')
  /\ 0 <= total_reverse_header_bytes (attrs w)
    <= total_reverse_header_bytes (attrs w').
Proof.
  intros Hrun Hstep.
  destruct (run_accumulated tr fresh w fresh_inv Hrun) as (Hinv & _ & Htot).
  assert (Hf := Htot ForwardHeaderBytes). assert (Hr := Htot ReverseHeaderBytes).
  pose proof (accumulated_header_nonneg ForwardHeaderBytes tr (or_introl eq_refl) [])
    as Hf0.
  pose proof (accumulated_header_nonneg ReverseHeaderBytes tr (or_intror eq_refl) [])
    as Hr0.
  cbn [total fresh attrs objs Barks_class total_forward_header_bytes
       total_reverse_header_bytes] in Hf, Hr.
  destruct e as [f | c' i]; cbn [step] in Hstep.
  - rewrite init_run in Hstep. injection Hstep as <-. cbn [attrs].
    pose proof (total_set_row ForwardHeaderBytes (row (attrs w) + 1) (attrs w)) as Ef.
    pose proof (total_set_row ReverseHeaderBytes (row (attrs w) + 1) (attrs w)) as Er.
    cbn [total] in Ef, Er. lia.
  - destruct (nth_error (objs w) i) as [self|] eqn:Hnth; [|discriminate].
    injection Hstep as <-. cbn [attrs].
    destruct (get_total_step c' i self w Hinv Hnth) as (_ & Hshare).
    assert (Sf := Hshare ForwardHeaderBytes). assert (Sr := Hshare ReverseHeaderBytes).
    cbn [total] in Sf, Sr.
    assert (0 <= per_flow get_if_hwaddr ForwardHeaderBytes self)
      by apply header_sum_nonneg.
    assert (0 <= per_flow get_if_hwaddr ReverseHeaderBytes self)
      by apply header_sum_nonneg.
    destruct (counter_eqb ForwardHeaderBytes c' && (2 <=? List.length (objs w))%nat);
      destruct (counter_eqb ReverseHeaderBytes c' && (2 <=? List.length (objs w))%nat);
      lia.
Qed.

(** ** Flows handled one after the other *)

Lemma process_run (c : counter) (f : Flow) (s : ClassAttrs) :
  process get_if_hwaddr c f s
  = let v := per_flow get_if_hwaddr c (mkBarks f) in
    let t := if row s + 1 =? 1 then v - v else total c s + v in
    (t, set_total c t (set_row (row s + 1) s)).
Proof.
  unfold process, bind. rewrite init_run, get_total_run. cbv zeta.
  rewrite total_set_row. reflexivity.
Qed.

Lemma process_all_cons (c : counter) (f : Flow) (fs : list Flow) (s : ClassAttrs) :
  process_all get_if_hwaddr c (f :: fs) s
  = (fst (process get_if_hwaddr c f s)
       :: fst (process_all get_if_hwaddr c fs (snd (process get_if_hwaddr c f s))),
     snd (process_all get_if_hwaddr c fs (snd (process get_if_hwaddr c f s)))).
Proof.
  cbn [process_all]. unfold bind.
  destruct (process get_if_hwaddr c f s) as [v s1]. cbn [fst snd].
  destruct (process_all get_if_hwaddr c fs s1) as [vs s2]. reflexivity.
Qed.

Lemma process_all_later (c : counter) (fs : list Flow) :
  forall s,
    1 <= row s ->
    let r := process_all get_if_hwaddr c fs s in
    fst r = running_sums (total c s)
              (map (fun f => per_flow get_if_hwaddr c (mkBarks f)) fs)
    /\ total c (snd r)
       = total c s + sum (map (fun f => per_flow get_if_hwaddr c (mkBarks f)) fs)
    /\ row (snd r) = row s + Z.of_nat (List.length fs).
Proof.
  induction fs as [|f fs IH]; intros s Hrow; cbv zeta.
  - cbn. split; [reflexivity|]. lia.
  - rewrite process_all_cons, process_run. cbv zeta. cbn [fst snd].
    assert (Hne : (row s + 1 =? 1) = false) by (apply Z.eqb_neq; lia).
    rewrite Hne.
    set (v := per_flow get_if_hwaddr c (mkBarks f)).
    set (s1 := set_total c (total c s + v) (set_row (row s + 1) s)).
    assert (Hrow1 : row s1 = row s + 1).
    { unfold s1. rewrite row_set_total. reflexivity. }
    assert (Htot1 : total c s1 = total c s + v).
    { unfold s1. rewrite total_set_total.
      assert (Hcc : counter_eqb c c = true) by (apply counter_eqb_eq; reflexivity).
      rewrite Hcc. reflexivity. }
    destruct (IH s1) as (Hv & Ht & Hr); [lia|].
    cbn [map running_sums List.length].
    rewrite sum_cons, Nat2Z.inj_succ. fold v.
    rewrite Hv, Ht, Hr, Htot1, Hrow1. repeat split; lia.
Qed.

(** X15. A caller that handles the flows of a fresh session one after the
    other, reading one total-* getter per flow, reads 0 for the first flow
    and then the running sums of the per-flow statistics of the later flows;
    the counter ends as the sum over all flows but the first, and [row] as
    the number of flows. *)
Theorem process_all_reads_running_sums (c : counter) (f : Flow) (fs : list Flow) :
  let r := process_all get_if_hwaddr c (f :: fs) Barks_class in
  fst r = 0 :: running_sums 0 (map (fun g => per_flow get_if_hwaddr c (mkBarks g)) fs)
  /\ total c (snd r) = sum (map (fun g => per_flow get_if_hwaddr c (mkBarks g)) fs)
  /\ row (snd r) = Z.of_nat (List.length (f :: fs)).
Proof.
  cbv zeta. rewrite process_all_cons, process_run. cbv zeta. cbn [fst snd].
  change (row Barks_class + 1 =? 1) with true. cbv iota. rewrite Z.sub_diag.
  set (s1 := set_total c 0 (set_row (row Barks_class + 1) Barks_class)).
  assert (Hrow1 : row s1 = 1).
  { unfold s1. rewrite row_set_total. reflexivity. }
  assert (Htot1 : total c s1 = 0).
  { unfold s1. rewrite total_set_total.
    assert (Hcc : counter_eqb c c = true) by (apply counter_eqb_eq; reflexivity).
    rewrite Hcc. reflexivity. }
  destruct (process_all_later c fs s1) as (Hv & Ht & Hr); [lia|].
  cbn [List.length].
  rewrite Hv, Ht, Hr, Htot1, Hrow1, Nat2Z.inj_succ. repeat split; lia.
Qed.

End AnyExecution.

Lemma totals_in_any_execution_witness :
  exists w,
    run hwaddr0 late_read fresh = Some w
    /\ row (attrs w) = 2
    /\ total BytesSent (attrs w) = accumulated hwaddr0 BytesSent [] late_read
    /\ accumulated hwaddr0 BytesSent [] late_read = 160.
Proof.
  destruct (run hwaddr0 late_read fresh) as [w|] eqn:Hrun.
  - exists w.
    destruct (totals_in_any_execution hwaddr0 late_read w Hrun) as (Hrow & _ & Htot).
    split; [reflexivity|]. split; [exact Hrow|].
    split; [apply Htot | reflexivity].
  - vm_compute in Hrun. discriminate.
Defined.

Lemma header_totals_never_decrease_witness :
  exists w w',
    run hwaddr0 usual_order fresh = Some w
    /\ step hwaddr0 (GetTotal ForwardHeaderBytes 2%nat) w = Some w'
    /\ 0 <= total_forward_header_bytes (attrs w)
         <= total_forward_header_bytes (attrs w').
Proof.
  destruct (run hwaddr0 usual_order fresh) as [w|] eqn:Hrun;
    [|vm_compute in Hrun; discriminate].
  destruct (step hwaddr0 (GetTotal ForwardHeaderBytes 2%nat) w) as [w'|] eqn:Hstep.
  - exists w, w'. split; [reflexivity|]. split; [exact Hstep|].
    apply (header_totals_never_decrease hwaddr0 usual_order w
             (GetTotal ForwardHeaderBytes 2%nat) w' Hrun Hstep).
  - exfalso. vm_compute in Hrun. injection Hrun as <-.
    vm_compute in Hstep. discriminate.
Defined.
